(** * Paping: a TCP connectivity probe (main.go)

    A shallow embedding of the probe's statistics aggregation
    ([ConnectionStats], [ping], [printReport]), of the organization lookup
    ([getIPInfo]), of the two validators ([isValidIP], [isValidPort]) and
    of the program that calls them ([main]), followed by the properties of
    the specification that concern them and by further properties of the
    code.

    Conventions.
    - Go's [int] (on a 64-bit platform) and [time.Duration] (an [int64]
      count of nanoseconds) are integers of [Z] with the 64-bit
      two's-complement wrap-around written out ([Int64.wrap]).
    - [float64] values are the IEEE 754 binary64 numbers of [SpecFloat]
      (precision 53, [emax] 1024, rounding to nearest even).
    - [ping] and [printReport] hold the statistics lock from their first to
      their last statement, so completed calls are totally ordered; a run is
      a list of probes applied one after another.
    - What the network answers is an input of a probe ([probe_io]).
    - [net.ParseIP], [http.Get] and [encoding/json] belong to Go's library;
      they are modelled after their documented behaviour ([Netip],
      [http_result], [Decode]), and the literals that [net.ParseIP] is to
      accept are written down a second time as a grammar ([Literal]).
      So are [strconv.Atoi] ([Strconv]) and the [net.SplitHostPort] of
      [net.DialTimeout] ([Net]). *)

From Stdlib Require Import ZArith List String Ascii Bool Lia DecimalString.
From Stdlib Require Import Permutation.
From Stdlib Require Import Floats.SpecFloat.
Import ListNotations.

Local Set Warnings "-register-all".

Local Open Scope string_scope.
Local Open Scope Z_scope.

(** ** Machine integers *)

Module Int64.

Definition modulus : Z := 2 ^ 64.
Definition min_int : Z := - 2 ^ 63.
Definition max_int : Z := 2 ^ 63 - 1.

Definition in_range (z : Z) : Prop := min_int <= z <= max_int.

(** The value a 64-bit signed register holds after an exact result [z]. *)
Definition wrap (z : Z) : Z := (z + 2 ^ 63) mod modulus - 2 ^ 63.

Definition add (a b : Z) : Z := wrap (a + b).

(** [x++] *)
Definition incr (a : Z) : Z := add a 1.

(** Go's [/] on integers truncates toward zero. *)
Definition quot (a b : Z) : Z := wrap (Z.quot a b).

End Int64.

(** ** binary64 *)

Module Float64.

Definition prec : Z := 53.
Definition emax : Z := 1024.

Definition t := spec_float.

(** The conversion [float64(n)] of an integer. *)
Definition of_int (n : Z) : t := binary_normalize prec emax n 0 false.

Definition div (x y : t) : t := SFdiv prec emax x y.
Definition mul (x y : t) : t := SFmul prec emax x y.

Definition is_finite (x : t) : bool :=
  match x with S754_zero _ | S754_finite _ _ _ => true | _ => false end.

Definition one : t := Eval vm_compute in of_int 1.
Definition hundred : t := Eval vm_compute in of_int 100.

End Float64.

(** ** time.Duration *)

Module Duration.

Definition Millisecond : Z := 1000000.

(** [d.Milliseconds()]: [int64(d) / 1e6]. *)
Definition Milliseconds (d : Z) : Z := Int64.quot d Millisecond.

End Duration.

(** ** Data model *)

(** [type ConnectionStats struct]; the embedded [sync.Mutex] is the lock
    that serializes [ping] and [printReport]. *)
Record ConnectionStats : Set := mkStats {
  Attempted : Z;
  Connected : Z;
  Failed    : Z;
  MinTime   : Z;
  MaxTime   : Z;
  TotalTime : Z
}.

(** [&ConnectionStats{}] *)
Definition new_stats : ConnectionStats := mkStats 0 0 0 0 0 0.

(** [type IPInfo struct { Org string `json:"org"` }] *)
Record IPInfo : Set := mkIPInfo { Org : string }.

(** ** isValidIP *)

(** Modelled from the spec: [isValidIP] is [net.ParseIP(ip) != nil], and
    [net.ParseIP] belongs to Go's standard library, not to src/.  The
    specification asks for the strings that parse as IPv4 or IPv6
    literals; [Netip] holds the steps by which the library decides it
    ([netip.ParseAddr], [parseIPv4], [parseIPv6]), function by function,
    over the bytes of the string. *)

Module Netip.

(** The byte [c] as a number. *)
Definition code (c : ascii) : Z := Z.of_N (N_of_ascii c).

Definition is_digit (c : ascii) : bool := (48 <=? code c) && (code c <=? 57).

Definition is_dot (c : ascii) : bool := Ascii.eqb c ".".
Definition is_colon (c : ascii) : bool := Ascii.eqb c ":".
Definition is_percent (c : ascii) : bool := Ascii.eqb c "%".

(** The value of a hexadecimal digit. *)
Definition hex_value (c : ascii) : option Z :=
  let n := code c in
  if (48 <=? n) && (n <=? 57) then Some (n - 48)
  else if (97 <=? n) && (n <=? 102) then Some (n - 97 + 10)
  else if (65 <=? n) && (n <=? 70) then Some (n - 65 + 10)
  else None.

(** The loop of [parseIPv4]: [prev] is the byte before the current one
    ([None] at index 0), [val], [pos] and [digLen] are the variables of
    that name and [fields] the octets stored so far. *)
Fixpoint parseIPv4_loop (s : list ascii) (prev : option ascii)
    (val pos digLen : Z) (fields : list Z) : option (list Z) :=
  match s with
  | [] => if pos <? 3 then None else Some (fields ++ [val])%list
  | c :: rest =>
      if is_digit c then
        if (digLen =? 1) && (val =? 0) then None
        else
          let val := val * 10 + (code c - 48) in
          if val >? 255 then None
          else parseIPv4_loop rest (Some c) val pos (digLen + 1) fields
      else if is_dot c then
        match prev, rest with
        | None, _ => None
        | _, [] => None
        | Some p, _ :: _ =>
            if is_dot p then None
            else if pos =? 3 then None
            else parseIPv4_loop rest (Some c) 0 (pos + 1) 0
                   (fields ++ [val])%list
        end
      else None
  end.

Definition parseIPv4 (s : list ascii) : option (list Z) :=
  parseIPv4_loop s None 0 0 0 [].

(** The hexadecimal number at the head of [s]: its value, the number of
    its digits and what follows it. *)
Fixpoint hex_group (s : list ascii) (off acc : Z)
    : option (Z * Z * list ascii) :=
  match s with
  | [] => Some (acc, off, [])
  | c :: rest =>
      match hex_value c with
      | None => Some (acc, off, s)
      | Some v =>
          let acc := acc * 16 + v in
          if off >? 3 then None
          else if acc >? 65535 then None
          else hex_group rest (off + 1) acc
      end
  end.

(** The loop [for i < 16] of [parseIPv6]; [i] grows by 2 at every turn, so
    8 turns are enough.  The result is what the loop leaves: the rest of
    the string, [i], [ellipsis] and the bytes stored. *)
Fixpoint parseIPv6_loop (turns : nat) (s : list ascii) (i ellipsis : Z)
    (ip : list Z) : option (list ascii * Z * Z * list Z) :=
  if negb (i <? 16) then Some (s, i, ellipsis, ip)
  else
    match turns with
    | O => None
    | S turns =>
        match hex_group s 0 0 with
        | None => None
        | Some (acc, off, s') =>
            if off =? 0 then None
            else if match s' with c :: _ => is_dot c | [] => false end then
              if (ellipsis <? 0) && negb (i =? 12) then None
              else if i + 4 >? 16 then None
              else
                match parseIPv4 s with
                | None => None
                | Some ip4 => Some ([], i + 4, ellipsis, (ip ++ ip4)%list)
                end
            else
              let ip := (ip ++ [acc / 256; acc mod 256])%list in
              let i := i + 2 in
              match s' with
              | [] => Some ([], i, ellipsis, ip)
              | c :: s1 =>
                  if negb (is_colon c) then None
                  else
                    match s1 with
                    | [] => None
                    | c1 :: s2 =>
                        if is_colon c1 then
                          if ellipsis >=? 0 then None
                          else
                            match s2 with
                            | [] => Some ([], i, i, ip)
                            | _ :: _ => parseIPv6_loop turns s2 i i ip
                            end
                        else parseIPv6_loop turns s1 i ellipsis ip
                    end
              end
        end
    end.

(** [s[:i]] and [s[i+1:]] for the first [%] of [s]. *)
Fixpoint cut_zone (s : list ascii) : list ascii * option (list ascii) :=
  match s with
  | [] => ([], None)
  | c :: rest =>
      if is_percent c then ([], Some rest)
      else let '(a, z) := cut_zone rest in (c :: a, z)
  end.

(** The 16 bytes once the ellipsis at byte [ellipsis] is expanded, [i]
    bytes having been read. *)
Definition expand (ip : list Z) (i ellipsis : Z) : list Z :=
  (firstn (Z.to_nat ellipsis) ip
   ++ repeat 0 (Z.to_nat (16 - i))
   ++ skipn (Z.to_nat ellipsis) ip)%list.

Definition parseIPv6 (input : list ascii)
    : option (list Z * list ascii) :=
  let '(s, z) := cut_zone input in
  match z with
  | Some [] => None
  | _ =>
      let zone := match z with Some zn => zn | None => [] end in
      let '(s, ellipsis) :=
        match s with
        | c0 :: c1 :: r =>
            if is_colon c0 && is_colon c1 then (r, 0) else (s, -1)
        | _ => (s, -1)
        end in
      if (ellipsis =? 0) && match s with [] => true | _ => false end
      then Some (repeat 0 16%nat, zone)
      else
        match parseIPv6_loop 8 s 0 ellipsis [] with
        | None => None
        | Some (s, i, ellipsis, ip) =>
            match s with
            | _ :: _ => None
            | [] =>
                if i <? 16 then
                  if ellipsis <? 0 then None
                  else Some (expand ip i ellipsis, zone)
                else if ellipsis >=? 0 then None
                else Some (ip, zone)
            end
        end
  end.

Definition v4_in_v6 (ip4 : list Z) : list Z :=
  ([0; 0; 0; 0; 0; 0; 0; 0; 0; 0; 255; 255] ++ ip4)%list.

(** [ParseAddr]: the first of [.], [:] and [%] decides how [s] is read. *)
Fixpoint ParseAddr_from (s rest : list ascii)
    : option (list Z * list ascii) :=
  match rest with
  | [] => None
  | c :: rest' =>
      if is_dot c then
        match parseIPv4 s with
        | Some ip4 => Some (v4_in_v6 ip4, [])
        | None => None
        end
      else if is_colon c then parseIPv6 s
      else if is_percent c then None
      else ParseAddr_from s rest'
  end.

Definition ParseAddr (s : list ascii) : option (list Z * list ascii) :=
  ParseAddr_from s s.

End Netip.

(** Modelled from the spec: [net.ParseIP], of Go's standard library, is
    not under src/.  The specification has it accept the strings that
    parse as IPv4 or IPv6 literals, with no DNS resolution: the result is
    a function of the bytes of the string alone, the 16 bytes of the
    address that [ParseAddr] reads when it reads one without zone. *)
Definition ParseIP (s : string) : option (list Z) :=
  match Netip.ParseAddr (list_ascii_of_string s) with
  | Some (ip, []) => Some ip
  | _ => None
  end.

Definition isValidIP (ip : string) : bool :=
  match ParseIP ip with
  | Some _ => true
  | None => false
  end.

(** ** isValidPort *)

Definition isValidPort (port : Z) : bool := (port >=? 0) && (port <=? 65535).

(** ** What a probe meets on the network *)

(** A JSON value, as [encoding/json] sees it once the text is scanned.  An
    object keeps its members in the order of the text, duplicates
    included. *)
Inductive json : Set :=
| JNull
| JBool (b : bool)
| JNumber (literal : string)
| JString (s : string)
| JArray (items : list json)
| JObject (members : list (string * json)).

(** The body of a response, as [json.NewDecoder(resp.Body).Decode] reads it:
    either the first JSON value of the stream, or no value at all (empty
    body, text that is not JSON, a read that fails). *)
Inductive body : Set :=
| BodyInvalid
| BodyValue (v : json).

Inductive error : Set :=
| ErrTransport (msg : string)      (* http.Get: no response was obtained *)
| ErrSyntax                        (* the decoder found no JSON value *)
| ErrUnmarshalType (what : string) (* a JSON value of the wrong kind *).

(** The result of [http.Get]: an error, or a response with its status code
    and body.  [http.Get] reports no error for a status outside 2xx. *)
Inductive http_result : Set :=
| HttpError (e : string)
| HttpResponse (StatusCode : Z) (Body : body).

(** The result of [net.DialTimeout]. *)
Inductive dial_result : Set :=
| DialError
| DialOk.

(** The answers one call of [ping] gets: the response to the GET of a URL,
    the outcome of dialling a host and port, and [time.Since(startTime)]
    read after the dial, in nanoseconds. *)
Record probe_io : Type := mkIO {
  io_get     : string -> http_result;
  io_dial    : string -> Z -> dial_result;
  io_elapsed : Z
}.

(** ** getIPInfo *)

Definition lower_ascii (c : ascii) : ascii :=
  let n := N_of_ascii c in
  if ((65 <=? n) && (n <=? 90))%N then ascii_of_N (n + 32) else c.

Fixpoint lower (s : string) : string :=
  match s with
  | EmptyString => EmptyString
  | String c r => String (lower_ascii c) (lower r)
  end.

(** [encoding/json] binds an object key to the struct field whose name it
    equals, letter case ignored. *)
Definition key_matches (key name : string) : bool :=
  String.eqb (lower key) (lower name).

Definition save_error (saved : option error) (e : error) : option error :=
  match saved with
  | Some _ => saved
  | None => Some e
  end.

(** Decoding the members of an object into an [IPInfo]: a string under the
    key of [Org] is stored, [null] leaves the field as it is, a value of
    another kind is recorded as the error to return (the first one is kept)
    and decoding goes on; members under other keys are skipped. *)
Fixpoint decode_members (ms : list (string * json)) (info : IPInfo)
    (saved : option error) : IPInfo * option error :=
  match ms with
  | [] => (info, saved)
  | (k, v) :: rest =>
      if key_matches k "org" then
        match v with
        | JString s => decode_members rest (mkIPInfo s) saved
        | JNull => decode_members rest info saved
        | _ => decode_members rest info
                 (save_error saved (ErrUnmarshalType "IPInfo.org"))
        end
      else decode_members rest info saved
  end.

(** [json.NewDecoder(body).Decode(&ipInfo)] *)
Definition Decode (b : body) (info : IPInfo) : IPInfo * option error :=
  match b with
  | BodyInvalid => (info, Some ErrSyntax)
  | BodyValue JNull => (info, None)
  | BodyValue (JObject ms) => decode_members ms info None
  | BodyValue _ => (info, Some (ErrUnmarshalType "IPInfo"))
  end.

(** [fmt.Sprintf("http://ipinfo.io/%s/json", ip)] *)
Definition info_url (ip : string) : string :=
  "http://ipinfo.io/" ++ ip ++ "/json".

Definition getIPInfo (get : string -> http_result) (ip : string)
    : IPInfo + error :=
  match get (info_url ip) with
  | HttpError e => inr (ErrTransport e)
  | HttpResponse _ b =>
      let '(ipInfo, err) := Decode b (mkIPInfo "") in
      match err with
      | Some e => inr e
      | None => inl ipInfo
      end
  end.

(** ** The log *)

(** One constructor per [logger.Printf] of the program, with the arguments
    the format string is applied to. *)
Inductive log_entry : Set :=
| LogLookupFailed (err : error)
    (* "Failed to get IP info: %v\n" *)
| LogConnectionTimedOut
    (* "Connection timed out\n" *)
| LogConnected (host : string) (ms : Float64.t) (port : Z) (isp : string)
    (* "Connected to %s time=%.2fms protocol=TCP port=%d ISP=%s\n" *)
| LogStatisticsTitle
    (* "\nConnection statistics:\n" *)
| LogCounts (attempted connected failed : Z) (successRate : Float64.t)
    (* "Attempted = %d, Connected = %d, Failed = %d (%.2f%%)\n" *)
| LogTimesTitle
    (* "Approximate connection times:\n" *)
| LogTimes (minimum maximum average : Float64.t)
    (* " Minimum = %.2fms, Maximum = %.2fms, Average = %.2fms\n" *).

(** ** ping *)

Definition fail_probe (stats : ConnectionStats) : ConnectionStats :=
  mkStats (Attempted stats) (Connected stats) (Int64.incr (Failed stats))
          (MinTime stats) (MaxTime stats) (TotalTime stats).

(** The statements of [ping] from [stats.Connected++] to
    [stats.Attempted++]. *)
Definition record_success (duration : Z) (stats : ConnectionStats)
    : ConnectionStats :=
  let connected := Int64.incr (Connected stats) in
  let total := Int64.add (TotalTime stats) duration in
  let minTime :=
    if (MinTime stats =? 0) || (duration <? MinTime stats)
    then duration else MinTime stats in
  let maxTime :=
    if duration >? MaxTime stats then duration else MaxTime stats in
  let attempted := Int64.incr (Attempted stats) in
  mkStats attempted connected (Failed stats) minTime maxTime total.

Definition ping (host : string) (port : Z) (io : probe_io)
    (stats : ConnectionStats) : ConnectionStats * list log_entry :=
  match getIPInfo (io_get io) host with
  | inr err => (fail_probe stats, [LogLookupFailed err])
  | inl ipInfo =>
      match io_dial io host port with
      | DialError => (fail_probe stats, [LogConnectionTimedOut])
      | DialOk =>
          let duration := io_elapsed io in
          (record_success duration stats,
           [LogConnected host
              (Float64.of_int (Duration.Milliseconds duration))
              port (Org ipInfo)])
      end
  end.

(** The probes that [main] starts every 550 ms run one at a time, in the
    order in which they take the lock. *)
Fixpoint run (host : string) (port : Z) (ios : list probe_io)
    (stats : ConnectionStats) : ConnectionStats * list log_entry :=
  match ios with
  | [] => (stats, [])
  | io :: rest =>
      let '(stats1, out1) := ping host port io stats in
      let '(stats2, out2) := run host port rest stats1 in
      (stats2, (out1 ++ out2)%list)
  end.

(** ** printReport *)

Definition successRate (stats : ConnectionStats) : Float64.t :=
  Float64.mul
    (Float64.div (Float64.of_int (Connected stats))
                 (Float64.of_int (Attempted stats)))
    Float64.hundred.

Definition averageTime (stats : ConnectionStats) : Float64.t :=
  Float64.div
    (Float64.of_int (Duration.Milliseconds (TotalTime stats)))
    (Float64.of_int (Connected stats)).

Definition printReport (stats : ConnectionStats) : list log_entry :=
  ([ LogStatisticsTitle;
     LogCounts (Attempted stats) (Connected stats) (Failed stats)
               (successRate stats);
     LogTimesTitle ]
   ++ (if Connected stats >? 0 then
         [ LogTimes (Float64.of_int (Duration.Milliseconds (MinTime stats)))
                    (Float64.of_int (Duration.Milliseconds (MaxTime stats)))
                    (averageTime stats) ]
       else []))%list.

(** ** Runs and their outcomes *)

(** A probe succeeds when the lookup returns no error and the dial
    connects. *)
Definition probe_succeeds (host : string) (port : Z) (io : probe_io) : bool :=
  match getIPInfo (io_get io) host with
  | inr _ => false
  | inl _ =>
      match io_dial io host port with
      | DialError => false
      | DialOk => true
      end
  end.

Definition successes (host : string) (port : Z) (ios : list probe_io) : Z :=
  Z.of_nat (List.length (filter (probe_succeeds host port) ios)).

Definition failures (host : string) (port : Z) (ios : list probe_io) : Z :=
  Z.of_nat
    (List.length (filter (fun io => negb (probe_succeeds host port io)) ios)).

(** Sum of the durations of the probes that connect. *)
Definition elapsed_total (host : string) (port : Z) (ios : list probe_io) : Z :=
  fold_right Z.add 0
    (map io_elapsed (filter (probe_succeeds host port) ios)).

Definition stats_in_range (stats : ConnectionStats) : Prop :=
  Int64.in_range (Attempted stats) /\ Int64.in_range (Connected stats) /\
  Int64.in_range (Failed stats).

(** The state of the latency fields between two probes, when every
    measured duration is positive and nothing has overflowed. *)
Definition latency_consistent (stats : ConnectionStats) : Prop :=
  (Connected stats = 0 /\ MinTime stats = 0 /\ MaxTime stats = 0 /\
   TotalTime stats = 0) \/
  (0 < Connected stats /\ 0 < MinTime stats /\
   Connected stats <= TotalTime stats /\
   MinTime stats * Connected stats <= TotalTime stats
     <= MaxTime stats * Connected stats).

(** The last line of the report, when there is one. *)
Definition times_line (stats : ConnectionStats) : log_entry :=
  LogTimes (Float64.of_int (Duration.Milliseconds (MinTime stats)))
           (Float64.of_int (Duration.Milliseconds (MaxTime stats)))
           (Float64.div
              (Float64.of_int (Duration.Milliseconds (TotalTime stats)))
              (Float64.of_int (Connected stats))).

Definition is_times_line (e : log_entry) : bool :=
  match e with LogTimes _ _ _ => true | _ => false end.

(** ** What the decoder accepts *)

(** The string the decoder leaves in [Org]: that of the last member under
    the key of [Org] whose value is a string. *)
Fixpoint last_org (ms : list (string * json)) : option string :=
  match ms with
  | [] => None
  | (k, v) :: rest =>
      match last_org rest with
      | Some s => Some s
      | None =>
          if key_matches k "org" then
            match v with
            | JString s => Some s
            | _ => None
            end
          else None
      end
  end.

Definition org_of_body (b : body) : string :=
  match b with
  | BodyValue (JObject ms) =>
      match last_org ms with
      | Some s => s
      | None => ""
      end
  | _ => ""
  end.

(** A value that fits the field [Org string]. *)
Definition fits_org (v : json) : Prop :=
  v = JNull \/ exists s, v = JString s.

(** A body that [Decode] accepts for an [IPInfo]: [null], or an object in
    which every member under the key of [Org] is a string or [null]. *)
Definition decodable (b : body) : Prop :=
  b = BodyValue JNull \/
  exists ms, b = BodyValue (JObject ms) /\
    forall k v, In (k, v) ms -> key_matches k "org" = true -> fits_org v.

Definition is_success_status (code : Z) : bool :=
  (200 <=? code) && (code <? 300).

(** The three causes of a lookup error that the specification names: a
    network error, a non-success response, malformed JSON. *)
Definition lookup_must_fail (r : http_result) : Prop :=
  match r with
  | HttpError _ => True
  | HttpResponse code b => is_success_status code = false \/ b = BodyInvalid
  end.

Definition lookup_fails (get : string -> http_result) (ip : string) : Prop :=
  exists err, getIPInfo get ip = inr err.

(** An object that lacks the "org" field, as the specification words it: no
    member is named "org". *)
Definition lacks_org_field (ms : list (string * json)) : Prop :=
  forall k v, In (k, v) ms -> k <> "org".

(** ** Sample answers of the network *)

(** A probe whose lookup is answered by [r], whose dial ends as [d] and
    which measures [ns] nanoseconds. *)
Definition answering (r : http_result) (d : dial_result) (ns : Z) : probe_io :=
  mkIO (fun _ => r) (fun _ _ => d) ns.

Definition google : http_result :=
  HttpResponse 200
    (BodyValue (JObject [("ip", JString "8.8.8.8");
                         ("org", JString "AS15169 Google LLC")])).

Definition anonymous : http_result :=
  HttpResponse 200
    (BodyValue (JObject [("ip", JString "192.0.2.1"); ("bogon", JBool true)])).

Definition not_found : http_result :=
  HttpResponse 404
    (BodyValue (JObject [("status", JNumber "404");
                         ("error", JObject [("title", JString "Wrong ip")])])).

(** Objects whose only member is named as [Org] in another letter case. *)
Definition capitalised : list (string * json) :=
  [("Org", JString "AS64496 Example")].

Definition upper_case_number : list (string * json) :=
  [("ORG", JNumber "64496")].

Definition connects_in (ns : Z) : probe_io := answering google DialOk ns.

Definition refused : probe_io := answering google DialError 0.

Definition no_lookup : probe_io :=
  answering (HttpError "no route to host") DialOk 0.

(** ** IP literals *)

Module Literal.

Local Open Scope char_scope.
Local Open Scope list_scope.
Local Open Scope Z_scope.

(** The decimal numeral of [n], without leading zeros. *)
Definition decimal (n : Z) : list ascii :=
  list_ascii_of_string (NilZero.string_of_uint (N.to_uint (Z.to_N n))).

Definition dec_octet (l : list ascii) : Prop :=
  exists n, 0 <= n <= 255 /\ l = decimal n.

(** Four decimal octets separated by dots. *)
Definition ipv4 (s : list ascii) : Prop :=
  exists a b c d,
    dec_octet a /\ dec_octet b /\ dec_octet c /\ dec_octet d /\
    s = a ++ "." :: b ++ "." :: c ++ "." :: d.

Definition hexdig (c : ascii) : Prop :=
  In c (list_ascii_of_string "0123456789abcdefABCDEF"%string).

(** One to four hexadecimal digits. *)
Definition h16 (g : list ascii) : Prop :=
  (1 <= List.length g <= 4)%nat /\ Forall hexdig g.

(** [pieces v4 n s]: [s] is a sequence of pieces separated by single
    colons that stands for [n] groups of 16 bits.  A piece is a [h16]; when
    [v4] holds the last piece may be an IPv4 literal, which stands for two
    groups. *)
Inductive pieces (v4 : bool) : nat -> list ascii -> Prop :=
| pieces_h16 g : h16 g -> pieces v4 1 g
| pieces_ipv4 s : v4 = true -> ipv4 s -> pieces v4 2 s
| pieces_cons g n s :
    h16 g -> pieces v4 n s -> pieces v4 (S n) (g ++ ":" :: s).

Definition opt_pieces (v4 : bool) (n : nat) (s : list ascii) : Prop :=
  (n = 0%nat /\ s = []) \/ pieces v4 n s.

(** Eight groups, or fewer groups around one [::] that stands for the
    groups left out (one at least). *)
Definition ipv6 (s : list ascii) : Prop :=
  pieces true 8 s \/
  exists a p b q,
    opt_pieces false a p /\ opt_pieces true b q /\ (a + b <= 7)%nat /\
    s = p ++ ":" :: ":" :: q.

Definition ip_literal (s : string) : Prop :=
  ipv4 (list_ascii_of_string s) \/ ipv6 (list_ascii_of_string s).

End Literal.

(** ** Devices of the proofs about the parser *)

Module Reading.

Import Netip.
Local Open Scope char_scope.
Local Open Scope list_scope.
Local Open Scope Z_scope.

(** What the loop of [parseIPv4] does with a run of digits. *)
Fixpoint read_digits (t : list ascii) (val digLen : Z) : option (Z * Z) :=
  match t with
  | [] => Some (val, digLen)
  | c :: r =>
      if is_digit c then
        if (digLen =? 1) && (val =? 0) then None
        else
          let val := val * 10 + (code c - 48) in
          if val >? 255 then None else read_digits r val (digLen + 1)
      else None
  end.

Definition digits : list ascii :=
  ["0"; "1"; "2"; "3"; "4"; "5"; "6"; "7"; "8"; "9"].

Definition last_of (t : list ascii) (prev : option ascii) : option ascii :=
  match rev t with
  | c :: _ => Some c
  | [] => prev
  end.

Definition ascii_list_eqb (a b : list ascii) : bool :=
  String.eqb (string_of_list_ascii a) (string_of_list_ascii b).

(** A run of digits that the loop reads as one octet. *)
Definition octet_run (t : list ascii) (v : Z) : Prop :=
  t <> [] /\ exists d, read_digits t 0 0 = Some (v, d).

Definition octet_range : list Z := map Z.of_nat (seq 0 256).

Definition decimal_reads (n : Z) : bool :=
  match Literal.decimal n, read_digits (Literal.decimal n) 0 0 with
  | _ :: _, Some (v, d) => (v =? n) && (d <=? 3)
  | _, _ => false
  end.

Definition run_is_decimal (t : list ascii) : bool :=
  match read_digits t 0 0 with
  | Some (v, _) =>
      (0 <=? v) && (v <=? 255) && ascii_list_eqb t (Literal.decimal v)
  | None => true
  end.

Definition three_digits_large (t : list ascii) : bool :=
  match read_digits t 0 0 with
  | Some (v, _) => 100 <=? v
  | None => true
  end.

Definition is_hex (c : ascii) : bool :=
  match hex_value c with
  | Some _ => true
  | None => false
  end.

Definition hexchars : list ascii :=
  list_ascii_of_string "0123456789abcdefABCDEF"%string.

(** The rest after a number does not open with a hexadecimal digit. *)
Definition ends_number (rest : list ascii) : Prop :=
  match rest with
  | [] => True
  | c :: _ => is_hex c = false
  end.

(** What the checks after the loop let through. *)
Definition accepted (res : option (list ascii * Z * Z * list Z)) : Prop :=
  match res with
  | Some ([], i, ellipsis, _) =>
      (i < 16 /\ 0 <= ellipsis) \/ (16 <= i /\ ellipsis < 0)
  | _ => False
  end.

(** [parseIPv6] on a string without zone. *)
Definition parseIPv6_plain (s : list ascii) : option (list Z) :=
  let '(s, ellipsis) :=
    match s with
    | c0 :: c1 :: r =>
        if is_colon c0 && is_colon c1 then (r, 0) else (s, -1)
    | _ => (s, -1)
    end in
  if (ellipsis =? 0) && match s with [] => true | _ => false end
  then Some (repeat 0 16%nat)
  else
    match parseIPv6_loop 8 s 0 ellipsis [] with
    | None => None
    | Some (s, i, ellipsis, ip) =>
        match s with
        | _ :: _ => None
        | [] =>
            if i <? 16 then
              if ellipsis <? 0 then None
              else Some (expand ip i ellipsis)
            else if ellipsis >=? 0 then None
            else Some ip
        end
    end.

End Reading.

(** ** Durations of a run *)

(** The durations measured by the probes that connect, in the order of the
    run. *)
Definition durations (host : string) (port : Z) (ios : list probe_io)
    : list Z :=
  map io_elapsed (filter (probe_succeeds host port) ios).

(** The durations after the last zero among [ds]. *)
Fixpoint since_last_zero (ds : list Z) : list Z :=
  match ds with
  | [] => []
  | d :: rest =>
      if existsb (Z.eqb 0) rest then since_last_zero rest
      else if d =? 0 then rest else d :: rest
  end.

(** The least element of [d :: ds]. *)
Definition minimum (d : Z) (ds : list Z) : Z := fold_left Z.min ds d.

(** The greatest of 0 and the elements of [ds]. *)
Definition maximum0 (ds : list Z) : Z := fold_left Z.max ds 0.

Definition is_connected_line (e : log_entry) : bool :=
  match e with LogConnected _ _ _ _ => true | _ => false end.

(** ** main *)

(** [strconv.Atoi] belongs to Go's library; it is modelled after its
    source: a fast path for strings of fewer than 19 bytes, and
    [ParseInt(s, 10, 0)] for the others. *)
Module Strconv.

Inductive NumError : Set :=
| ErrSyntax
| ErrRange.

(** [s[0] == '-' || s[0] == '+'] *)
Definition is_sign (c : ascii) : bool :=
  Ascii.eqb c "-" || Ascii.eqb c "+".

Definition is_minus (s : list ascii) : bool :=
  match s with
  | c :: _ => Ascii.eqb c "-"
  | [] => false
  end.

(** The loop of the fast path: [ch -= '0'] on a byte, [ch > 9] is a syntax
    error, [n = n*10 + int(ch)]. *)
Fixpoint fast_digits (s : list ascii) (n : Z) : option Z :=
  match s with
  | [] => Some n
  | c :: rest =>
      let ch := (Netip.code c - 48) mod 256 in
      if ch >? 9 then None else fast_digits rest (n * 10 + ch)
  end.

(** [ParseUint(s, 10, 64)]: [cutoff] is the smallest number such that
    [cutoff*10 > maxUint64]. *)
Definition cutoff : Z := (2 ^ 64 - 1) / 10 + 1.

Definition maxVal : Z := 2 ^ 64 - 1.

(** The loop of [ParseUint] on a [uint64]: a byte that is no digit is a
    syntax error; [n >= cutoff] and [n1 < n || n1 > maxVal] are range errors
    with the value [maxVal], returned at the digit that overflows. *)
Fixpoint ParseUint_digits (s : list ascii) (n : Z) : Z * option NumError :=
  match s with
  | [] => (n, None)
  | c :: rest =>
      if (48 <=? Netip.code c) && (Netip.code c <=? 57) then
        let d := Netip.code c - 48 in
        if n >=? cutoff then (maxVal, Some ErrRange)
        else
          let n10 := (n * 10) mod 2 ^ 64 in
          let n1 := (n10 + d) mod 2 ^ 64 in
          if (n1 <? n10) || (n1 >? maxVal) then (maxVal, Some ErrRange)
          else ParseUint_digits rest n1
      else (0, Some ErrSyntax)
  end.

Definition ParseUint (s : list ascii) : Z * option NumError :=
  match s with
  | [] => (0, Some ErrSyntax)
  | _ :: _ => ParseUint_digits s 0
  end.

(** [ParseInt(s, 10, 0)]: an optional sign, [ParseUint], and the bounds of
    [int64]; an error of [ParseUint] other than a range error is returned
    with 0; out of the bounds the result is the nearest bound and a range
    error. *)
Definition ParseInt (s : list ascii) : Z * option NumError :=
  match s with
  | [] => (0, Some ErrSyntax)
  | c :: rest =>
      let neg := Ascii.eqb c "-" in
      let s1 := if is_sign c then rest else s in
      let '(un, err) := ParseUint s1 in
      match err with
      | Some ErrSyntax => (0, err)
      | _ =>
          if negb neg && (un >=? 2 ^ 63) then (2 ^ 63 - 1, Some ErrRange)
          else if neg && (un >? 2 ^ 63) then (- 2 ^ 63, Some ErrRange)
          else (if neg then - un else un, None)
      end
  end.

Definition Atoi (str : string) : Z * option NumError :=
  let s0 := list_ascii_of_string str in
  let sLen := Z.of_nat (List.length s0) in
  if (0 <? sLen) && (sLen <? 19) then
    let s :=
      match s0 with
      | c :: rest => if is_sign c then rest else s0
      | [] => s0
      end in
    match s with
    | [] => (0, Some ErrSyntax)
    | _ :: _ =>
        match fast_digits s 0 with
        | None => (0, Some ErrSyntax)
        | Some n => (if is_minus s0 then - n else n, None)
        end
    end
  else ParseInt s0.

End Strconv.

(** What [logger.Fatal] is given. *)
Inductive fatal : Set :=
| FatalUsage
    (* "Usage: go run main.go ip port" *)
| FatalInvalidIP (host : string)
    (* "Invalid IP address:", host *)
| FatalInvalidPort (err : option Strconv.NumError)
    (* "Invalid port number:", err *).

(** The statements of [main] before the loop: a fatal error, or the host
    and port to probe. *)
Inductive startup : Set :=
| Fatal (f : fatal)
| Start (host : string) (port : Z).

Definition check_args (Args : list string) : startup :=
  if negb (List.length Args =? 3)%nat then Fatal FatalUsage
  else
    let host := nth 1 Args "" in
    if negb (isValidIP host) then Fatal (FatalInvalidIP host)
    else
      let '(port, err) := Strconv.Atoi (nth 2 Args "") in
      if match err with Some _ => true | None => false end
         || negb (isValidPort port)
      then Fatal (FatalInvalidPort err)
      else Start host port.

(** A line of the standard output. *)
Inductive line : Set :=
| FatalLine (f : fatal)
| Line (e : log_entry).

(** A run of the program that ends: [logger.Fatal] exits with status 1;
    otherwise the probes run until the signal handler takes the lock,
    prints the report and exits with status 0.  [ios] are the probes that
    complete before the handler takes the lock; the result is the exit
    status and the lines written up to the end of the report. *)
Definition main (Args : list string) (ios : list probe_io)
    : Z * list line :=
  match check_args Args with
  | Fatal f => (1, [FatalLine f])
  | Start host port =>
      let '(stats, out) := run host port ios new_stats in
      (0, map Line (out ++ printReport stats)%list)
  end.

(** ** Decimal numerals *)

Module Numeral.

Local Open Scope char_scope.
Local Open Scope list_scope.
Local Open Scope Z_scope.

Definition digit (c : ascii) : Prop :=
  In c ["0"; "1"; "2"; "3"; "4"; "5"; "6"; "7"; "8"; "9"].

(** The number that a string of digits writes in base 10. *)
Definition value (ds : list ascii) : Z :=
  fold_left (fun n c => n * 10 + (Netip.code c - 48)) ds 0.

(** The number that [s] writes after [n], when [s] holds decimal digits
    only. *)
Fixpoint decimal_value (s : list ascii) (n : Z) : option Z :=
  match s with
  | [] => Some n
  | c :: rest =>
      if (48 <=? Netip.code c) && (Netip.code c <=? 57)
      then decimal_value rest (n * 10 + (Netip.code c - 48))
      else None
  end.

(** [numeral s n]: [s] is one digit or more, possibly after one sign, and
    writes [n]. *)
Inductive numeral : list ascii -> Z -> Prop :=
| numeral_plain ds :
    ds <> [] -> Forall digit ds -> numeral ds (value ds)
| numeral_plus ds :
    ds <> [] -> Forall digit ds -> numeral ("+" :: ds) (value ds)
| numeral_minus ds :
    ds <> [] -> Forall digit ds -> numeral ("-" :: ds) (- value ds).

End Numeral.

(** An invocation that [main] accepts: the program name, an IP address
    and the numeral of a port. *)
Definition valid_invocation (Args : list string) (host : string) (port : Z)
    : Prop :=
  exists prog p,
    Args = [prog; host; p] /\ isValidIP host = true /\
    Numeral.numeral (list_ascii_of_string p) port /\ 0 <= port <= 65535.

(** ** The address that [ping] dials *)

(** [%d] of an [int]. *)
Definition format_int (n : Z) : string :=
  NilZero.string_of_int (Z.to_int n).

(** [fmt.Sprintf("%s:%d", host, port)] *)
Definition dial_address (host : string) (port : Z) : string :=
  host ++ ":" ++ format_int port.

(** [net.DialTimeout] splits its address with [net.SplitHostPort], which
    belongs to Go's library and is modelled after its source. *)
Module Net.

Local Open Scope char_scope.
Local Open Scope list_scope.
Local Open Scope Z_scope.

Inductive AddrError : Set :=
| MissingPort        (* "missing port in address" *)
| TooManyColons      (* "too many colons in address" *)
| MissingBracket     (* "missing ']' in address" *)
| UnexpectedOpen     (* "unexpected '[' in address" *)
| UnexpectedClose    (* "unexpected ']' in address" *).

(** The index of the first [c] in [s], or -1. *)
Fixpoint IndexByte (s : list ascii) (c : ascii) : Z :=
  match s with
  | [] => -1
  | x :: rest =>
      if Ascii.eqb x c then 0
      else
        let k := IndexByte rest c in
        if k <? 0 then -1 else k + 1
  end.

(** The index of the last [c] in [s], or -1. *)
Fixpoint LastIndexByte (s : list ascii) (c : ascii) : Z :=
  match s with
  | [] => -1
  | x :: rest =>
      let k := LastIndexByte rest c in
      if 0 <=? k then k + 1 else if Ascii.eqb x c then 0 else -1
  end.

(** [s[i:]] and [s[i:j]] *)
Definition from (i : Z) (s : list ascii) : list ascii :=
  skipn (Z.to_nat i) s.

Definition slice (i j : Z) (s : list ascii) : list ascii :=
  firstn (Z.to_nat (j - i)) (skipn (Z.to_nat i) s).

Definition SplitHostPort (hostport : list ascii)
    : (list ascii * list ascii) + AddrError :=
  let i := LastIndexByte hostport ":" in
  if i <? 0 then inr MissingPort
  else
    let bracketed :=
      match hostport with
      | c :: _ => Ascii.eqb c "["
      | [] => false
      end in
    let found :=
      if bracketed then
        let e := IndexByte hostport "]" in
        if e <? 0 then inr MissingBracket
        else if e + 1 =? Z.of_nat (List.length hostport) then inr MissingPort
        else if e + 1 =? i then inl (slice 1 e hostport, 1, e + 1)
        else
          match nth_error hostport (Z.to_nat (e + 1)) with
          | Some ":" => inr TooManyColons
          | _ => inr MissingPort
          end
      else
        let host := slice 0 i hostport in
        if 0 <=? IndexByte host ":" then inr TooManyColons
        else inl (host, 0, 0) in
    match found with
    | inr err => inr err
    | inl (host, j, k) =>
        if 0 <=? IndexByte (from j hostport) "[" then inr UnexpectedOpen
        else if 0 <=? IndexByte (from k hostport) "]" then
          inr UnexpectedClose
        else inl (host, from (i + 1) hostport)
    end.

(** A dial whose address [SplitHostPort] refuses fails before any
    connection is tried. *)
Definition dial_parses_address (io : probe_io) : Prop :=
  forall host port err,
    SplitHostPort (list_ascii_of_string (dial_address host port)) = inr err ->
    io_dial io host port = DialError.

End Net.

Definition is_lookup_failed (e : log_entry) : bool :=
  match e with LogLookupFailed _ => true | _ => false end.

(** ** Bytes of addresses and of numbers *)

(** A byte that an address may hold. *)
Definition address_byte (c : ascii) : Prop :=
  Reading.is_hex c = true \/ c = "."%char \/ c = ":"%char.

(** What [%d] writes: digits, after a minus sign for a negative number. *)
Definition number_byte (c : ascii) : Prop :=
  Numeral.digit c \/ c = "-"%char.

(** [Atoi] reads back the port [n] written by [%d]. *)
Definition port_round_trip (n : Z) : bool :=
  match Strconv.Atoi (format_int n) with
  | (m, None) => m =? n
  | _ => false
  end.

Definition below_256 : list Z := map Z.of_nat (seq 0 256).

(** * Properties *)

(** ** Wrap-around *)

Module Int64Facts.

Lemma wrap_in_range (z : Z) : Int64.in_range (Int64.wrap z).
Proof.
  unfold Int64.in_range, Int64.wrap, Int64.min_int, Int64.max_int,
    Int64.modulus.
  pose proof (Z.mod_pos_bound (z + 2 ^ 63) (2 ^ 64) ltac:(lia)). lia.
Qed.

Lemma wrap_id (z : Z) : Int64.in_range z -> Int64.wrap z = z.
Proof.
  unfold Int64.in_range, Int64.wrap, Int64.min_int, Int64.max_int,
    Int64.modulus.
  intros H. rewrite Z.mod_small by lia. lia.
Qed.

Lemma wrap_add_l (a b : Z) :
  Int64.wrap (Int64.wrap a + b) = Int64.wrap (a + b).
Proof.
  unfold Int64.wrap, Int64.modulus.
  replace ((a + 2 ^ 63) mod 2 ^ 64 - 2 ^ 63 + b + 2 ^ 63)
    with ((a + 2 ^ 63) mod 2 ^ 64 + b) by lia.
  rewrite Zplus_mod_idemp_l. f_equal. f_equal. lia.
Qed.

Lemma incr_exact (a : Z) :
  Int64.min_int <= a < Int64.max_int -> Int64.incr a = a + 1.
Proof.
  intros H. unfold Int64.incr, Int64.add. apply wrap_id.
  unfold Int64.in_range. lia.
Qed.

Lemma zero_in_range : Int64.in_range 0.
Proof. unfold Int64.in_range, Int64.min_int, Int64.max_int. lia. Qed.

End Int64Facts.

Create HintDb int64.
#[export] Hint Resolve Int64Facts.wrap_in_range Int64Facts.zero_in_range
  : int64.

(** Closes a range goal once the bounds of [Int64] are unfolded. *)
Ltac int64_range :=
  unfold Int64.in_range, Int64.min_int, Int64.max_int in *; lia.

(** ** binary64: conversions of integers and the quotient [x / x] *)

Module Float64Facts.

Lemma digits2_pos_bounds (p : positive) :
  2 ^ (Zpos (digits2_pos p) - 1) <= Zpos p < 2 ^ Zpos (digits2_pos p).
Proof.
  induction p as [p IH | p IH | ]; cbn [digits2_pos].
  - rewrite Pos2Z.inj_succ, Z.pow_succ_r by lia.
    replace (Z.succ (Zpos (digits2_pos p)) - 1)
      with (Z.succ (Zpos (digits2_pos p) - 1)) by lia.
    rewrite Z.pow_succ_r by lia. lia.
  - rewrite Pos2Z.inj_succ, Z.pow_succ_r by lia.
    replace (Z.succ (Zpos (digits2_pos p)) - 1)
      with (Z.succ (Zpos (digits2_pos p) - 1)) by lia.
    rewrite Z.pow_succ_r by lia. lia.
  - cbn. lia.
Qed.

Lemma digits2_pos_le (p : positive) (k : Z) :
  Zpos p < 2 ^ k -> Zpos (digits2_pos p) <= k.
Proof.
  intros H. destruct (digits2_pos_bounds p) as [Hlo _].
  destruct (Z_le_gt_dec (Zpos (digits2_pos p)) k) as [|Hgt]; [assumption|].
  destruct (Z_lt_le_dec k 0) as [Hk|Hk].
  - rewrite Z.pow_neg_r in H by lia. lia.
  - assert (2 ^ k <= 2 ^ (Zpos (digits2_pos p) - 1))
      by (apply Z.pow_le_mono_r; lia).
    lia.
Qed.

Lemma digits2_pos_gt (p : positive) (k : Z) :
  0 <= k -> 2 ^ k <= Zpos p -> k < Zpos (digits2_pos p).
Proof.
  intros Hk H. destruct (digits2_pos_bounds p) as [_ Hhi].
  destruct (Z_lt_le_dec k (Zpos (digits2_pos p))) as [|Hle]; [assumption|].
  assert (2 ^ Zpos (digits2_pos p) <= 2 ^ k)
    by (apply Z.pow_le_mono_r; lia).
  lia.
Qed.

Lemma digits2_pos_iter_xO (k p : positive) :
  Zpos (digits2_pos (Pos.iter xO p k)) = Zpos (digits2_pos p) + Zpos k.
Proof.
  induction k as [|k IH] using Pos.peano_ind.
  - cbn [Pos.iter digits2_pos]. lia.
  - rewrite Pos.iter_succ. cbn [digits2_pos]. lia.
Qed.

Lemma shr_1_m (r : shr_record) :
  0 <= shr_m r -> shr_m (shr_1 r) = shr_m r / 2.
Proof.
  destruct r as [m r s]; cbn [shr_m]. intros Hm.
  destruct m as [|[p|p|]|p]; cbn [shr_1 shr_m]; try lia.
  - reflexivity.
  - rewrite Pos2Z.inj_xI. apply Z.div_unique with (r := 1); lia.
  - rewrite Pos2Z.inj_xO. apply Z.div_unique with (r := 0); lia.
  - reflexivity.
Qed.

Lemma iter_shr_1_m (k : positive) :
  forall r, 0 <= shr_m r ->
  shr_m (iter_pos shr_1 k r) = shr_m r / 2 ^ Zpos k.
Proof.
  induction k as [k IH | k IH | ]; intros r Hr; cbn [iter_pos].
  - assert (H1 : 0 <= shr_m (shr_1 r))
      by (rewrite shr_1_m by assumption; apply Z.div_pos; lia).
    assert (H2 : 0 <= shr_m (iter_pos shr_1 k (shr_1 r)))
      by (rewrite IH by assumption; apply Z.div_pos; lia).
    rewrite IH, IH, shr_1_m by assumption.
    rewrite !Z.div_div by lia.
    f_equal. replace (Zpos k~1) with (1 + Zpos k + Zpos k) by lia.
    rewrite !Z.pow_add_r by lia. change (2 ^ 1) with 2. lia.
  - assert (H2 : 0 <= shr_m (iter_pos shr_1 k r))
      by (rewrite IH by assumption; apply Z.div_pos; lia).
    rewrite IH, IH by assumption.
    rewrite !Z.div_div by lia.
    f_equal. replace (Zpos k~0) with (Zpos k + Zpos k) by lia.
    rewrite !Z.pow_add_r by lia. lia.
  - rewrite shr_1_m by assumption. reflexivity.
Qed.

(** What [shr_fexp] leaves of a positive mantissa in the normal range. *)
Lemma shr_fexp_pos (m : positive) (e : Z) (l : location) :
  let d := Zpos (digits2_pos m) in
  -1074 <= d + e - 53 ->
  exists r e1,
    shr_fexp 53 1024 (Zpos m) e l = (r, e1) /\
    (d <= 53 -> shr_m r = Zpos m /\ e1 = e) /\
    (53 < d -> 2 ^ 52 <= shr_m r < 2 ^ 53 /\ e1 = d + e - 53).
Proof.
  intros d Hn.
  unfold shr_fexp, fexp, emin. cbn [Zdigits2]. fold d.
  replace (Z.max (d + e - 53) (3 - 1024 - 53)) with (d + e - 53) by lia.
  replace (d + e - 53 - e) with (d - 53) by lia.
  destruct (d - 53) as [|k|k] eqn:Hk; cbn [shr].
  - eexists _, _. split; [reflexivity|]. split; [|lia].
    intros _. destruct l as [|[]]; split; reflexivity.
  - eexists _, _. split; [reflexivity|]. split; [lia|]. intros _.
    split; [|lia]. rewrite iter_shr_1_m by (destruct l as [|[]]; cbn; lia).
    replace (shr_m (shr_record_of_loc (Zpos m) l)) with (Zpos m)
      by (destruct l as [|[]]; reflexivity).
    destruct (digits2_pos_bounds m) as [Hlo Hhi]. fold d in Hlo, Hhi.
    replace d with (52 + Zpos k + 1) in Hlo, Hhi by lia.
    replace (52 + Zpos k + 1 - 1) with (52 + Zpos k) in Hlo by lia.
    replace (52 + Zpos k + 1) with (53 + Zpos k) in Hhi by lia.
    rewrite Z.pow_add_r in Hlo, Hhi by lia.
    assert (0 < 2 ^ Zpos k) by (apply Z.pow_pos_nonneg; lia).
    split.
    + apply Z.div_le_lower_bound; lia.
    + apply Z.div_lt_upper_bound; lia.
  - eexists _, _. split; [reflexivity|]. split; [|lia].
    intros _. destruct l as [|[]]; split; reflexivity.
Qed.

Lemma round_nearest_even_range (m : Z) (l : location) :
  m <= round_nearest_even m l <= m + 1.
Proof.
  unfold round_nearest_even. destruct l as [|[]]; try lia.
  destruct (Z.even m); lia.
Qed.

Lemma binary_round_aux_finite (sx : bool) (m : positive) (e : Z)
    (l : location) :
  let d := Zpos (digits2_pos m) in
  -1074 <= d + e - 53 -> e <= 970 -> d + e <= 1023 ->
  exists m' e',
    binary_round_aux 53 1024 sx (Zpos m) e l = S754_finite sx m' e'.
Proof.
  intros d Hlo He Hhi. unfold binary_round_aux.
  destruct (shr_fexp_pos m e l Hlo) as (r1 & e1 & -> & Hsmall & Hbig).
  fold d in Hsmall, Hbig.
  pose proof (round_nearest_even_range (shr_m r1) (loc_of_shr_record r1)) as Hr.
  set (m2 := round_nearest_even (shr_m r1) (loc_of_shr_record r1)) in *.
  assert (Hm2 : 0 < m2 <= 2 ^ 53 /\ e1 <= 970 /\
                -1074 <= Zdigits2 m2 + e1 - 53).
  { destruct (Z_le_gt_dec d 53) as [Hd|Hd].
    - destruct (Hsmall Hd) as [Hm ->].
      destruct (digits2_pos_bounds m) as [_ Hu]. fold d in Hu.
      assert (2 ^ d <= 2 ^ 53) by (apply Z.pow_le_mono_r; lia).
      split; [lia|]. split; [lia|].
      destruct m2 as [|q|q] eqn:Hq; try lia. cbn [Zdigits2].
      destruct (digits2_pos_bounds q) as [_ Hq2].
      assert (Zpos m < 2 ^ Zpos (digits2_pos q)) by lia.
      pose proof (digits2_pos_le m _ H0). fold d in H1. lia.
    - destruct (Hbig ltac:(lia)) as [Hm ->].
      split; [lia|]. split; [lia|].
      destruct m2 as [|q|q] eqn:Hq; try lia. cbn [Zdigits2].
      assert (52 < Zpos (digits2_pos q)) by (apply digits2_pos_gt; lia).
      lia. }
  destruct Hm2 as (Hm2 & He1 & Hn2).
  destruct m2 as [|q|q] eqn:Hq; try lia.
  destruct (shr_fexp_pos q e1 loc_Exact Hn2) as (r2 & e2 & -> & Hs2 & Hb2).
  assert (Hd2 : Zpos (digits2_pos q) <= 54).
  { apply digits2_pos_le. change (2 ^ 54) with (2 * 2 ^ 53). lia. }
  assert (Hfin : 0 < shr_m r2 /\ e2 <= 971).
  { destruct (Z_le_gt_dec (Zpos (digits2_pos q)) 53) as [Hd|Hd].
    - destruct (Hs2 Hd) as [-> ->]. lia.
    - destruct (Hb2 ltac:(lia)) as [Hm ->]. lia. }
  destruct Hfin as [Hpos He2].
  destruct (shr_m r2) as [|m'|m']; try lia.
  change (1024 - 53) with 971.
  destruct (Z.leb_spec e2 971); [|lia].
  eexists _, _. reflexivity.
Qed.

Lemma shl_align_spec (p : positive) (e e' : Z) :
  exists mz ez,
    shl_align p e e' = (mz, ez) /\
    Zpos (digits2_pos mz) + ez = Zpos (digits2_pos p) + e /\
    ez = Z.min e e'.
Proof.
  unfold shl_align. destruct (e' - e) as [|k|k] eqn:Hk.
  - eexists _, _. split; [reflexivity|]. lia.
  - eexists _, _. split; [reflexivity|]. lia.
  - eexists _, _. split; [reflexivity|].
    rewrite digits2_pos_iter_xO. lia.
Qed.

Lemma of_int_finite (n : Z) :
  n <> 0 -> - 2 ^ 63 <= n <= 2 ^ 63 ->
  exists m e, Float64.of_int n = S754_finite (n <? 0) m e.
Proof.
  intros Hn Hr. unfold Float64.of_int, Float64.prec, Float64.emax.
  assert (Hgen : forall sx p, Zpos p <= 2 ^ 63 ->
            exists m e, binary_round 53 1024 sx p 0 = S754_finite sx m e).
  { intros sx p Hp. unfold binary_round.
    destruct (shl_align_spec p 0 (fexp 53 1024 (Zpos (digits2_pos p) + 0)))
      as (mz & ez & -> & Hd & He).
    assert (Zpos (digits2_pos p) <= 64).
    { apply digits2_pos_le. change (2 ^ 64) with (2 * 2 ^ 63). lia. }
    apply binary_round_aux_finite; lia. }
  destruct n as [|p|p]; [congruence| |]; cbn [binary_normalize Z.ltb Z.compare].
  - apply Hgen. lia.
  - apply Hgen. lia.
Qed.

Lemma div_self (s : bool) (m : positive) (e : Z) :
  Float64.div (S754_finite s m e) (S754_finite s m e) = Float64.one.
Proof.
  unfold Float64.div, SFdiv, SFdiv_core_binary.
  replace (Zdigits2 (Zpos m) + e - (Zdigits2 (Zpos m) + e)) with 0 by lia.
  rewrite Z.sub_diag.
  change (Z.min (fexp Float64.prec Float64.emax 0) 0) with (-53).
  change (0 - -53) with 53.
  cbv iota beta.
  rewrite Z.shiftl_mul_pow2 by lia.
  assert (Hq : Z.div_eucl (Zpos m * 2 ^ 53) (Zpos m) = (2 ^ 53, 0)).
  { pose proof (Z_div_mod (Zpos m * 2 ^ 53) (Zpos m) ltac:(lia)) as H.
    destruct (Z.div_eucl (Zpos m * 2 ^ 53) (Zpos m)) as [q r].
    destruct H as [H1 H2]. assert (q = 2 ^ 53) by nia. subst q.
    f_equal. lia. }
  rewrite Hq.
  assert (Hl : new_location (Zpos m) 0 = loc_Exact).
  { unfold new_location. destruct (Z.even (Zpos m)); reflexivity. }
  rewrite Hl. rewrite xorb_nilpotent. vm_compute. reflexivity.
Qed.

End Float64Facts.

Lemma successRate_equal_counts (stats : ConnectionStats) :
  Connected stats = Attempted stats ->
  Attempted stats <> 0 -> Int64.in_range (Attempted stats) ->
  successRate stats = Float64.hundred.
Proof.
  intros Heq Hnz Hr. unfold successRate. rewrite Heq.
  destruct (Float64Facts.of_int_finite (Attempted stats) Hnz) as (m & e & ->).
  { unfold Int64.in_range, Int64.min_int, Int64.max_int in Hr. lia. }
  rewrite Float64Facts.div_self. vm_compute. reflexivity.
Qed.

Lemma zero_divisor_not_finite (x : Float64.t) :
  Float64.is_finite
    (Float64.mul (Float64.div x (Float64.of_int 0)) Float64.hundred) = false.
Proof. destruct x as [s|s| |s m e]; reflexivity. Qed.

(** ** Statistics aggregator *)

Module Aggregator.

Section Run.

Variable host : string.
Variable port : Z.

Lemma ping_success (io : probe_io) (stats : ConnectionStats) :
  probe_succeeds host port io = true ->
  fst (ping host port io stats) = record_success (io_elapsed io) stats.
Proof.
  unfold probe_succeeds, ping.
  destruct (getIPInfo (io_get io) host); [|discriminate].
  destruct (io_dial io host port); [discriminate|reflexivity].
Qed.

Lemma ping_failure (io : probe_io) (stats : ConnectionStats) :
  probe_succeeds host port io = false ->
  fst (ping host port io stats) = fail_probe stats.
Proof.
  unfold probe_succeeds, ping.
  destruct (getIPInfo (io_get io) host); [|reflexivity].
  destruct (io_dial io host port); [reflexivity|discriminate].
Qed.

Lemma run_cons (io : probe_io) (ios : list probe_io)
    (stats : ConnectionStats) :
  fst (run host port (io :: ios) stats)
  = fst (run host port ios (fst (ping host port io stats))).
Proof.
  cbn [run]. destruct (ping host port io stats) as [s1 o1]. cbn [fst].
  destruct (run host port ios s1). reflexivity.
Qed.

Lemma successes_cons (io : probe_io) (ios : list probe_io) :
  successes host port (io :: ios)
  = (if probe_succeeds host port io then 1 else 0) + successes host port ios.
Proof.
  unfold successes. cbn [filter].
  destruct (probe_succeeds host port io); cbn [List.length]; lia.
Qed.

Lemma failures_cons (io : probe_io) (ios : list probe_io) :
  failures host port (io :: ios)
  = (if probe_succeeds host port io then 0 else 1) + failures host port ios.
Proof.
  unfold failures. cbn [filter].
  destruct (probe_succeeds host port io); cbn [negb List.length]; lia.
Qed.

Lemma successes_failures_length (ios : list probe_io) :
  successes host port ios + failures host port ios
  = Z.of_nat (List.length ios).
Proof.
  induction ios as [|io ios IH].
  - reflexivity.
  - rewrite successes_cons, failures_cons. cbn [List.length].
    destruct (probe_succeeds host port io); lia.
Qed.

Lemma successes_nonneg (ios : list probe_io) : 0 <= successes host port ios.
Proof. unfold successes. lia. Qed.

Lemma failures_nonneg (ios : list probe_io) : 0 <= failures host port ios.
Proof. unfold failures. lia. Qed.

Lemma new_stats_in_range : stats_in_range new_stats.
Proof. unfold stats_in_range; cbn; auto with int64. Qed.

Lemma record_success_in_range (d : Z) (stats : ConnectionStats) :
  stats_in_range stats -> stats_in_range (record_success d stats).
Proof.
  intros (_ & _ & Hf).
  unfold record_success, stats_in_range, Int64.incr, Int64.add. cbn.
  auto with int64.
Qed.

Lemma fail_probe_in_range (stats : ConnectionStats) :
  stats_in_range stats -> stats_in_range (fail_probe stats).
Proof.
  intros (Ha & Hc & _).
  unfold fail_probe, stats_in_range, Int64.incr, Int64.add. cbn.
  auto with int64.
Qed.

(** The counters after a run, wrap-around included. *)
Lemma run_counters (ios : list probe_io) :
  forall stats, stats_in_range stats ->
  let stats' := fst (run host port ios stats) in
  Failed stats' = Int64.wrap (Failed stats + failures host port ios) /\
  Connected stats' = Int64.wrap (Connected stats + successes host port ios) /\
  Attempted stats' = Int64.wrap (Attempted stats + successes host port ios).
Proof.
  induction ios as [|io ios IH]; intros stats Hr.
  - destruct Hr as (Ha & Hc & Hf).
    cbn. unfold successes, failures. cbn. rewrite !Z.add_0_r.
    rewrite !Int64Facts.wrap_id by assumption. auto.
  - cbv zeta. rewrite run_cons, successes_cons, failures_cons.
    destruct (probe_succeeds host port io) eqn:Hs.
    + rewrite ping_success by assumption.
      destruct (IH (record_success (io_elapsed io) stats)) as (-> & -> & ->);
        [exact (record_success_in_range _ _ Hr)|].
      unfold record_success, Int64.incr, Int64.add.
      cbn [Failed Connected Attempted].
      rewrite !Int64Facts.wrap_add_l. repeat split; f_equal; lia.
    + rewrite ping_failure by assumption.
      destruct (IH (fail_probe stats)) as (-> & -> & ->);
        [exact (fail_probe_in_range _ Hr)|].
      unfold fail_probe, Int64.incr, Int64.add.
      cbn [Failed Connected Attempted].
      rewrite !Int64Facts.wrap_add_l. repeat split; f_equal; lia.
Qed.

Lemma run_connected_attempted (ios : list probe_io) :
  Connected (fst (run host port ios new_stats))
  = Attempted (fst (run host port ios new_stats)).
Proof.
  destruct (run_counters ios new_stats new_stats_in_range) as (_ & -> & ->).
  reflexivity.
Qed.

Lemma run_attempted_in_range (ios : list probe_io) :
  Int64.in_range (Attempted (fst (run host port ios new_stats))).
Proof.
  destruct (run_counters ios new_stats new_stats_in_range) as (_ & _ & ->).
  auto with int64.
Qed.

Lemma run_all_failed (ios : list probe_io) :
  (forall io, In io ios -> probe_succeeds host port io = false) ->
  successes host port ios = 0.
Proof.
  induction ios as [|io ios IH]; intros H.
  - reflexivity.
  - rewrite successes_cons, (H io) by (left; reflexivity).
    rewrite IH; [reflexivity|]. intros io' Hin. apply H. right. assumption.
Qed.

(** C1: after a run of N probes of which S succeed and F fail, and as long
    as N fits the counters, [Failed] is F, [Connected] is S and [Attempted]
    is S; so [Connected = Attempted], and the success rate of the report is
    100 whenever [Attempted] is positive. *)
Theorem run_counts_outcomes (ios : list probe_io) :
  Z.of_nat (List.length ios) <= Int64.max_int ->
  let stats := fst (run host port ios new_stats) in
  Failed stats = failures host port ios /\
  Connected stats = successes host port ios /\
  Attempted stats = successes host port ios /\
  Connected stats = Attempted stats /\
  (0 < Attempted stats -> successRate stats = Float64.hundred).
Proof.
  intros Hlen stats.
  pose proof (successes_failures_length ios) as Hsum.
  pose proof (successes_nonneg ios) as Hs.
  pose proof (failures_nonneg ios) as Hf.
  destruct (run_counters ios new_stats new_stats_in_range) as (HF & HC & HA).
  fold stats in HF, HC, HA.
  cbn [new_stats Failed Connected Attempted] in HF, HC, HA.
  rewrite Int64Facts.wrap_id in HF, HC, HA by int64_range.
  split; [exact HF|]. split; [exact HC|]. split; [exact HA|].
  split; [congruence|].
  intros Hpos. apply successRate_equal_counts.
  - congruence.
  - lia.
  - apply run_attempted_in_range.
Qed.

(** C3: a probe that fails, at the lookup or at the dial, adds one to
    [Failed] and leaves every other field as it was; it logs no
    connection. *)
Theorem failed_probe_counts_only_failure (io : probe_io)
    (stats : ConnectionStats) :
  (exists err, getIPInfo (io_get io) host = inr err) \/
  io_dial io host port = DialError ->
  let stats' := fst (ping host port io stats) in
  let out := snd (ping host port io stats) in
  Failed stats' = Int64.incr (Failed stats) /\
  (Int64.min_int <= Failed stats < Int64.max_int ->
   Failed stats' = Failed stats + 1) /\
  Attempted stats' = Attempted stats /\
  Connected stats' = Connected stats /\
  MinTime stats' = MinTime stats /\
  MaxTime stats' = MaxTime stats /\
  TotalTime stats' = TotalTime stats /\
  (forall h ms p isp, ~ In (LogConnected h ms p isp) out).
Proof.
  intros Hfail.
  assert (Hp : fst (ping host port io stats) = fail_probe stats /\
               forall h ms p isp,
                 ~ In (LogConnected h ms p isp)
                      (snd (ping host port io stats))).
  { unfold ping. destruct (getIPInfo (io_get io) host) as [info|err] eqn:Hget.
    - destruct Hfail as [[err Herr]|Hdial]; [discriminate|].
      rewrite Hdial. cbn. split; [reflexivity|].
      intros h ms p isp [H|[]]; discriminate.
    - cbn. split; [reflexivity|]. intros h ms p isp [H|[]]; discriminate. }
  destruct Hp as [Hst Hlog]. cbv zeta. rewrite Hst.
  cbn [fail_probe Failed Attempted Connected MinTime MaxTime TotalTime].
  repeat split; try assumption.
  apply Int64Facts.incr_exact.
Qed.

(** C9: zero is both the unset [MinTime] and a possible duration.  A
    success that measures 0 leaves [MinTime] at 0, and the next success
    stores its own duration [d > 0] there: after the durations 0 and [d]
    the minimum reads [d]. *)
Theorem zero_duration_unsets_minimum (io0 io1 : probe_io)
    (stats : ConnectionStats) (d : Z) :
  probe_succeeds host port io0 = true ->
  probe_succeeds host port io1 = true ->
  io_elapsed io0 = 0 -> io_elapsed io1 = d -> 0 < d ->
  0 <= MinTime stats ->
  let stats1 := fst (ping host port io0 stats) in
  let stats2 := fst (ping host port io1 stats1) in
  MinTime stats1 = 0 /\ MinTime stats2 = d /\
  MinTime (fst (run host port [io0; io1] stats)) = d.
Proof.
  intros H0 H1 E0 E1 Hd Hmin. cbv zeta.
  rewrite !run_cons. cbn [run fst].
  rewrite (ping_success io0 stats H0).
  rewrite (ping_success io1 _ H1).
  rewrite E0, E1.
  assert (Hz : MinTime (record_success 0 stats) = 0).
  { unfold record_success. cbn [MinTime].
    destruct (Z.eqb_spec (MinTime stats) 0) as [->|Hne]; cbn [orb];
      [reflexivity|].
    destruct (Z.ltb_spec 0 (MinTime stats)); [reflexivity|lia]. }
  split; [exact Hz|].
  assert (Hdd : MinTime (record_success d (record_success 0 stats)) = d).
  { unfold record_success at 1. cbn [MinTime]. rewrite Hz. reflexivity. }
  split; exact Hdd.
Qed.

Lemma record_success_min_le_max (d : Z) (stats : ConnectionStats) :
  MinTime stats <= MaxTime stats ->
  MinTime (record_success d stats) <= MaxTime (record_success d stats).
Proof.
  intros H. unfold record_success. cbn [MinTime MaxTime].
  destruct (Z.eqb_spec (MinTime stats) 0), (Z.ltb_spec d (MinTime stats)),
    (Z.gtb_spec d (MaxTime stats)); cbn [orb]; lia.
Qed.

(** The minimum never exceeds the maximum. *)
Lemma run_min_le_max (ios : list probe_io) :
  forall stats, MinTime stats <= MaxTime stats ->
  MinTime (fst (run host port ios stats))
  <= MaxTime (fst (run host port ios stats)).
Proof.
  induction ios as [|io ios IH]; intros stats H.
  - exact H.
  - rewrite run_cons. apply IH.
    destruct (probe_succeeds host port io) eqn:Hs.
    + rewrite ping_success by assumption. apply record_success_min_le_max, H.
    + rewrite ping_failure by assumption. exact H.
Qed.

Lemma record_success_consistent (d : Z) (stats : ConnectionStats) :
  0 < d -> TotalTime stats + d <= Int64.max_int ->
  latency_consistent stats ->
  latency_consistent (record_success d stats) /\
  TotalTime (record_success d stats) = TotalTime stats + d.
Proof.
  intros Hd Hsum Hc. unfold latency_consistent, record_success.
  cbn [Connected MinTime MaxTime TotalTime].
  unfold Int64.incr, Int64.add.
  destruct Hc as [(Hc & Hm & Hx & Ht) | (Hc & Hm & Hct & Hlo & Hhi)].
  - rewrite Hc, Hm, Hx, Ht. cbn [Z.eqb orb].
    rewrite !Int64Facts.wrap_id by int64_range.
    destruct (Z.gtb_spec d 0); [|lia]. split; [|lia]. right. lia.
  - rewrite !Int64Facts.wrap_id by int64_range.
    split; [|lia]. right.
    destruct (Z.eqb_spec (MinTime stats) 0), (Z.ltb_spec d (MinTime stats)),
      (Z.gtb_spec d (MaxTime stats)); cbn [orb]; nia.
Qed.

Lemma elapsed_total_nonneg (ios : list probe_io) :
  (forall io, In io ios -> probe_succeeds host port io = true ->
              0 < io_elapsed io) ->
  0 <= elapsed_total host port ios.
Proof.
  unfold elapsed_total. induction ios as [|a l IH]; intros Hl; [cbn; lia|].
  assert (0 <= fold_right Z.add 0
                 (map io_elapsed (filter (probe_succeeds host port) l)))
    by (apply IH; intros; apply Hl; [right|]; assumption).
  cbn [filter]. destruct (probe_succeeds host port a) eqn:Ha.
  - cbn [map fold_right]. specialize (Hl a (or_introl eq_refl) Ha). lia.
  - assumption.
Qed.

Lemma run_latency_consistent (ios : list probe_io) :
  forall stats,
  (forall io, In io ios -> probe_succeeds host port io = true ->
              0 < io_elapsed io) ->
  TotalTime stats + elapsed_total host port ios <= Int64.max_int ->
  latency_consistent stats ->
  latency_consistent (fst (run host port ios stats)).
Proof.
  induction ios as [|io l IH]; intros stats Hp Hs Hc.
  - exact Hc.
  - rewrite run_cons.
    assert (Hl : forall io', In io' l ->
                   probe_succeeds host port io' = true -> 0 < io_elapsed io')
      by (intros io' Hin; apply Hp; right; exact Hin).
    pose proof (elapsed_total_nonneg l Hl) as He.
    unfold elapsed_total in Hs. cbn [filter] in Hs.
    destruct (probe_succeeds host port io) eqn:Hio.
    + rewrite ping_success by assumption.
      cbn [map fold_right] in Hs. fold (elapsed_total host port l) in Hs.
      specialize (Hp io (or_introl eq_refl) Hio) as Hd.
      destruct (record_success_consistent (io_elapsed io) stats Hd
                  ltac:(lia) Hc) as [Hc' Ht'].
      apply IH; [exact Hl| |exact Hc']. rewrite Ht'. lia.
    + rewrite ping_failure by assumption.
      apply IH; [exact Hl|exact Hs|exact Hc].
Qed.

(** Where no probe measures a zero duration and the durations add up
    within [int64], the average lies between the extrema. *)
Lemma run_average_between_extrema (ios : list probe_io) :
  (forall io, In io ios -> probe_succeeds host port io = true ->
              0 < io_elapsed io) ->
  elapsed_total host port ios <= Int64.max_int ->
  let stats := fst (run host port ios new_stats) in
  0 < Connected stats ->
  MinTime stats <= MaxTime stats /\
  MinTime stats * Connected stats <= TotalTime stats
    <= MaxTime stats * Connected stats.
Proof.
  intros Hpos Hsum stats Hconn.
  destruct (run_latency_consistent ios new_stats Hpos)
    as [(Hc & _) | (_ & _ & _ & Hb)].
  - cbn [new_stats TotalTime]. lia.
  - left. cbn. auto.
  - fold stats in Hc. lia.
  - fold stats in Hb. split; [|exact Hb].
    apply (run_min_le_max ios new_stats). cbn. lia.
Qed.

End Run.

Lemma run_counts_outcomes_witness :
  let ios := [connects_in 1500000; refused; no_lookup; connects_in 900000] in
  let stats := fst (run "192.0.2.1" 80 ios new_stats) in
  Z.of_nat (List.length ios) <= Int64.max_int /\
  Failed stats = 2 /\ Connected stats = 2 /\ Attempted stats = 2 /\
  successRate stats = Float64.hundred.
Proof.
  cbv zeta. split; [vm_compute; discriminate|].
  pose proof (run_counts_outcomes "192.0.2.1" 80
    [connects_in 1500000; refused; no_lookup; connects_in 900000]) as H.
  cbv zeta in H.
  specialize (H ltac:(vm_compute; discriminate)).
  destruct H as (HF & HC & HA & _ & HR).
  split; [exact HF|]. split; [exact HC|]. split; [exact HA|].
  apply HR. vm_compute. reflexivity.
Defined.

Lemma failed_probe_counts_only_failure_witness :
  let stats := mkStats 3 3 1 900000 1500000 3600000 in
  io_dial refused "192.0.2.1" 9999 = DialError /\
  fst (ping "192.0.2.1" 9999 refused stats)
  = mkStats 3 3 2 900000 1500000 3600000.
Proof.
  cbv zeta. split; [reflexivity|].
  pose proof (failed_probe_counts_only_failure "192.0.2.1" 9999 refused
                (mkStats 3 3 1 900000 1500000 3600000)
                (or_intror eq_refl)) as H.
  cbv zeta in H. destruct H as (_ & H1 & H2 & H3 & H4 & H5 & H6 & _).
  specialize (H1 ltac:(vm_compute; split; [discriminate|reflexivity])).
  destruct (fst (ping "192.0.2.1" 9999 refused
                   (mkStats 3 3 1 900000 1500000 3600000))).
  cbn in *. congruence.
Defined.

Lemma zero_duration_unsets_minimum_witness :
  probe_succeeds "127.0.0.1" 22 (connects_in 0) = true /\
  probe_succeeds "127.0.0.1" 22 (connects_in 7) = true /\
  MinTime (fst (run "127.0.0.1" 22 [connects_in 0; connects_in 7] new_stats))
  = 7.
Proof.
  split; [reflexivity|]. split; [reflexivity|].
  apply (zero_duration_unsets_minimum "127.0.0.1" 22 (connects_in 0)
           (connects_in 7) new_stats 7);
    first [reflexivity | vm_compute; discriminate].
Defined.

(** C2: the minimum never exceeds the maximum ([run_min_le_max]), but the
    average leaves the interval once a success has measured 0: after the
    durations 0 and 4 ms the record holds a minimum of 4 ms and a total of
    4 ms over two connections, and the report prints an average of 2 ms
    under a minimum of 4 ms. *)
Theorem average_below_minimum_after_zero_duration :
  let ios := [connects_in 0; connects_in 4000000] in
  let stats := fst (run "127.0.0.1" 22 ios new_stats) in
  Connected stats = 2 /\
  MinTime stats = 4000000 /\ MaxTime stats = 4000000 /\
  TotalTime stats = 4000000 /\
  TotalTime stats < MinTime stats * Connected stats /\
  nth_error (printReport stats) 3
  = Some (LogTimes (Float64.of_int 4) (Float64.of_int 4) (Float64.of_int 2)).
Proof. vm_compute. repeat split. Qed.

End Aggregator.

(** ** Organization lookup *)

Module Lookup.

Lemma decode_members_info (ms : list (string * json)) :
  forall info saved,
  fst (decode_members ms info saved)
  = match last_org ms with
    | Some s => mkIPInfo s
    | None => info
    end.
Proof.
  induction ms as [|[k v] ms IH]; intros info saved;
    cbn [decode_members last_org].
  - reflexivity.
  - destruct (key_matches k "org").
    + destruct v; rewrite IH; destruct (last_org ms); reflexivity.
    + rewrite IH. destruct (last_org ms); reflexivity.
Qed.

(** An error once saved is the one returned. *)
Lemma decode_members_saved (ms : list (string * json)) :
  forall info e, snd (decode_members ms info (Some e)) = Some e.
Proof.
  induction ms as [|[k v] ms IH]; intros info e; cbn [decode_members].
  - reflexivity.
  - destruct (key_matches k "org"); [destruct v|]; apply IH.
Qed.

(** Reduces a statement about the members [(k, v) :: ms] to the head and to
    the statement about [ms]. *)
Ltac members_cons :=
  let H := fresh "H" in
  let k' := fresh "k" in
  let v' := fresh "v" in
  let Heq := fresh "Heq" in
  let Hin := fresh "Hin" in
  split;
  [ intros H k' v' [Heq|Hin] Hk';
    [injection Heq as <- <-; unfold fits_org; eauto; try congruence
    | eauto]
  | intros H k' v' Hin; apply H; right; exact Hin ].

Lemma decode_members_ok (ms : list (string * json)) :
  forall info,
  snd (decode_members ms info None) = None <->
  (forall k v, In (k, v) ms -> key_matches k "org" = true -> fits_org v).
Proof.
  induction ms as [|[k v] ms IH]; intros info; cbn [decode_members].
  - split; [intros _ k v []|reflexivity].
  - destruct (key_matches k "org") eqn:Hk.
    + destruct v;
        try (cbn [save_error]; rewrite decode_members_saved; split;
             [discriminate |
              intros H; destruct (H k _ (or_introl eq_refl) Hk) as [Hn|[s Hs]];
              discriminate]).
      * rewrite IH. members_cons.
      * rewrite IH. members_cons.
    + rewrite IH. members_cons.
Qed.

Lemma Decode_ok (b : body) (info : IPInfo) :
  snd (Decode b info) = None <-> decodable b.
Proof.
  unfold decodable. destruct b as [|v]; cbn [Decode].
  - split; [discriminate|]. intros [H|(ms & H & _)]; discriminate.
  - destruct v; cbn [snd];
      try (split; [discriminate | intros [H|(ms & H & _)]; discriminate]).
    + split; [left; reflexivity | reflexivity].
    + rewrite decode_members_ok. split.
      * intros H. right. eexists. split; [reflexivity|exact H].
      * intros [H|(ms & H & Hall)]; [discriminate|].
        injection H as <-. exact Hall.
Qed.

Lemma Decode_info (b : body) :
  snd (Decode b (mkIPInfo "")) = None ->
  fst (Decode b (mkIPInfo "")) = mkIPInfo (org_of_body b).
Proof.
  destruct b as [|v]; cbn [Decode]; [discriminate|].
  destruct v; cbn [fst snd org_of_body]; try discriminate; try reflexivity.
  intros _. rewrite decode_members_info.
  destruct (last_org members); reflexivity.
Qed.

Lemma getIPInfo_response (get : string -> http_result) (ip : string)
    (code : Z) (b : body) :
  get (info_url ip) = HttpResponse code b ->
  getIPInfo get ip
  = match snd (Decode b (mkIPInfo "")) with
    | Some e => inr e
    | None => inl (fst (Decode b (mkIPInfo "")))
    end.
Proof.
  intros H. unfold getIPInfo. rewrite H.
  destruct (Decode b (mkIPInfo "")) as [info [e|]]; reflexivity.
Qed.

Lemma getIPInfo_decodable (get : string -> http_result) (ip : string)
    (code : Z) (b : body) :
  get (info_url ip) = HttpResponse code b -> decodable b ->
  getIPInfo get ip = inl (mkIPInfo (org_of_body b)).
Proof.
  intros Hget Hdec.
  rewrite (getIPInfo_response get ip code b Hget).
  apply (Decode_ok b (mkIPInfo "")) in Hdec. rewrite Hdec.
  rewrite Decode_info by exact Hdec. reflexivity.
Qed.

Lemma last_org_none (ms : list (string * json)) :
  (forall k v, In (k, v) ms -> key_matches k "org" = false) ->
  last_org ms = None.
Proof.
  induction ms as [|[k v] ms IH]; intros H; cbn [last_org].
  - reflexivity.
  - rewrite IH by (intros k' v' Hin; apply (H k' v'); right; exact Hin).
    rewrite (H k v (or_introl eq_refl)). reflexivity.
Qed.

(** The key of [Org] is recognised whatever its letter case. *)
Example org_key_any_case :
  getIPInfo
    (fun _ =>
       HttpResponse 200 (BodyValue (JObject [("ORG", JString "AS64496")])))
    "192.0.2.1"
  = inl (mkIPInfo "AS64496").
Proof. reflexivity. Qed.

(** A body that is well-formed JSON and not an object is an error. *)
Example lookup_fails_on_array :
  getIPInfo (fun _ => HttpResponse 200 (BodyValue (JArray []))) "192.0.2.1"
  = inr (ErrUnmarshalType "IPInfo").
Proof. reflexivity. Qed.

(** C6 as the specification words it does not hold: a 404 whose body is a
    JSON object is a non-success response, and the lookup returns no
    error. *)
Lemma lookup_succeeds_on_not_found :
  let get := fun _ : string => not_found in
  lookup_must_fail (get (info_url "8.8.8.8")) /\
  getIPInfo get "8.8.8.8" = inl (mkIPInfo "") /\
  ~ (lookup_fails get "8.8.8.8" <->
     lookup_must_fail (get (info_url "8.8.8.8"))).
Proof.
  cbv zeta. split; [left; reflexivity|]. split; [reflexivity|].
  intros [_ H]. destruct H as [err Herr].
  - left. reflexivity.
  - discriminate.
Qed.

(** C6, amended: [getIPInfo] returns an error exactly when the GET fails
    or the body does not decode into an [IPInfo] (no JSON value, or a
    value of the wrong kind); when the body decodes, the result holds the
    organization found in it; the status code of the response plays no
    part. *)
Theorem lookup_fails_iff_undecodable (get : string -> http_result)
    (ip : string) :
  (lookup_fails get ip <->
   match get (info_url ip) with
   | HttpError _ => True
   | HttpResponse _ b => ~ decodable b
   end) /\
  (forall code b,
     get (info_url ip) = HttpResponse code b -> decodable b ->
     getIPInfo get ip = inl (mkIPInfo (org_of_body b))) /\
  (forall code code' b,
     get (info_url ip) = HttpResponse code b ->
     getIPInfo get ip = getIPInfo (fun _ => HttpResponse code' b) ip).
Proof.
  split; [|split].
  - unfold lookup_fails. destruct (get (info_url ip)) as [e|code b] eqn:Hget.
    + split; [trivial|]. intros _. unfold getIPInfo. rewrite Hget. eauto.
    + rewrite (getIPInfo_response get ip code b Hget).
      rewrite <- (Decode_ok b (mkIPInfo "")).
      destruct (snd (Decode b (mkIPInfo ""))) as [e|].
      * split; [intros _; discriminate | eauto].
      * split; [intros [err H]; discriminate
               | intros H; contradiction H; reflexivity].
  - intros code b. apply getIPInfo_decodable.
  - intros code code' b Hget.
    rewrite (getIPInfo_response get ip code b Hget).
    rewrite (getIPInfo_response _ ip code' b eq_refl). reflexivity.
Qed.

Lemma lookup_fails_iff_undecodable_witness :
  getIPInfo (fun _ => google) "8.8.8.8" = inl (mkIPInfo "AS15169 Google LLC") /\
  getIPInfo (fun _ => google) "8.8.8.8"
  = getIPInfo
      (fun _ => HttpResponse 503
         (BodyValue (JObject [("ip", JString "8.8.8.8");
                              ("org", JString "AS15169 Google LLC")])))
      "8.8.8.8".
Proof.
  destruct (lookup_fails_iff_undecodable (fun _ => google) "8.8.8.8")
    as (_ & Hok & Hcode).
  split.
  - apply (Hok 200 _ eq_refl).
    right. eexists. split; [reflexivity|].
    intros k v [Heq|[Heq|[]]] Hk; injection Heq as <- <-;
      [discriminate | right; eexists; reflexivity].
  - apply (Hcode 200 503 _ eq_refl).
Defined.

(** C10 as the specification words it does not hold: an object whose only
    member is named "Org" lacks the "org" field, yet the lookup returns the
    string of that member as the organization and a probe that connects
    logs it as the ISP; an object whose only member is a number named "ORG"
    lacks the "org" field too, and the lookup returns an error. *)
Lemma org_in_other_case_is_read :
  let ok (ms : list (string * json)) : string -> http_result :=
    fun _ => HttpResponse 200 (BodyValue (JObject ms)) in
  lacks_org_field capitalised /\
  getIPInfo (ok capitalised) "192.0.2.1"
  = inl (mkIPInfo "AS64496 Example") /\
  snd (ping "192.0.2.1" 80 (mkIO (ok capitalised) (fun _ _ => DialOk) 1500000)
         new_stats)
  = [LogConnected "192.0.2.1" Float64.one 80 "AS64496 Example"] /\
  lacks_org_field upper_case_number /\
  lookup_fails (ok upper_case_number) "192.0.2.1" /\
  ~ (forall ms, lacks_org_field ms ->
                getIPInfo (ok ms) "192.0.2.1" = inl (mkIPInfo "")).
Proof.
  cbv zeta.
  assert (Hc : lacks_org_field capitalised).
  { intros k v [H|[]]. injection H as <- _. discriminate. }
  assert (Hu : lacks_org_field upper_case_number).
  { intros k v [H|[]]. injection H as <- _. discriminate. }
  split; [exact Hc|]. split; [reflexivity|]. split; [reflexivity|].
  split; [exact Hu|]. split; [eexists; reflexivity|].
  intros H. specialize (H capitalised Hc). discriminate H.
Qed.

(** C10, amended: when the body is a JSON object without a member under the
    key of [Org] (the key "org", letter case ignored as the decoder does),
    the lookup returns no error and an empty organization, whatever the
    status code; the probe goes on to the dial, and a probe that connects
    logs an empty ISP. *)
Theorem missing_org_is_empty (host : string) (port : Z) (io : probe_io)
    (stats : ConnectionStats) (code : Z) (ms : list (string * json)) :
  io_get io (info_url host) = HttpResponse code (BodyValue (JObject ms)) ->
  (forall k v, In (k, v) ms -> key_matches k "org" = false) ->
  getIPInfo (io_get io) host = inl (mkIPInfo "") /\
  ping host port io stats
  = match io_dial io host port with
    | DialError => (fail_probe stats, [LogConnectionTimedOut])
    | DialOk =>
        (record_success (io_elapsed io) stats,
         [LogConnected host
            (Float64.of_int (Duration.Milliseconds (io_elapsed io)))
            port ""])
    end.
Proof.
  intros Hget Hno.
  assert (Hinfo : getIPInfo (io_get io) host = inl (mkIPInfo "")).
  { rewrite (getIPInfo_decodable _ host code _ Hget).
    - cbn [org_of_body]. rewrite (last_org_none ms Hno). reflexivity.
    - right. eexists. split; [reflexivity|].
      intros k v Hin Hk. rewrite (Hno k v Hin) in Hk. discriminate. }
  split; [exact Hinfo|]. unfold ping. rewrite Hinfo. reflexivity.
Qed.

Lemma missing_org_is_empty_witness :
  let io := answering anonymous DialOk 1500000 in
  getIPInfo (io_get io) "192.0.2.1" = inl (mkIPInfo "") /\
  ping "192.0.2.1" 80 io new_stats
  = (mkStats 1 1 0 1500000 1500000 1500000,
     [LogConnected "192.0.2.1" Float64.one 80 ""]).
Proof.
  cbv zeta.
  apply (missing_org_is_empty "192.0.2.1" 80
           (answering anonymous DialOk 1500000) new_stats 200
           [("ip", JString "192.0.2.1"); ("bogon", JBool true)] eq_refl).
  intros k v [Heq|[Heq|[]]]; injection Heq as <- <-; reflexivity.
Defined.

End Lookup.

(** ** Reporter *)

Module Reporter.

(** C4: the report carries [Connected / Attempted * 100] computed in
    binary64 whatever the counters are; with [Attempted = 0] the quotient
    has a zero divisor and the rate is not a finite number; it is NaN when
    [Connected] is 0 too, which is the case after every run that leaves
    [Attempted] at 0. *)
Theorem successRate_unguarded :
  (forall stats,
     nth_error (printReport stats) 1
     = Some (LogCounts (Attempted stats) (Connected stats) (Failed stats)
               (Float64.mul
                  (Float64.div (Float64.of_int (Connected stats))
                               (Float64.of_int (Attempted stats)))
                  (Float64.of_int 100)))) /\
  (forall stats,
     Attempted stats = 0 ->
     Float64.is_finite (successRate stats) = false /\
     (Connected stats = 0 -> successRate stats = S754_nan)) /\
  (forall host port ios,
     let stats := fst (run host port ios new_stats) in
     Attempted stats = 0 ->
     In (LogCounts 0 0 (Failed stats) S754_nan) (printReport stats)).
Proof.
  split; [|split].
  - intros stats. reflexivity.
  - intros stats Ha. unfold successRate. rewrite Ha. split.
    + apply zero_divisor_not_finite.
    + intros ->. reflexivity.
  - intros host port ios stats Ha.
    pose proof (Aggregator.run_connected_attempted host port ios) as Hc.
    fold stats in Hc.
    unfold printReport, successRate. rewrite Hc, Ha. cbn.
    right. left. reflexivity.
Qed.

Lemma successRate_unguarded_witness :
  let stats := fst (run "192.0.2.1" 9999 [refused; no_lookup] new_stats) in
  Attempted stats = 0 /\
  In (LogCounts 0 0 (Failed stats) S754_nan) (printReport stats).
Proof.
  cbv zeta. split; [reflexivity|].
  destruct successRate_unguarded as (_ & _ & H).
  exact (H "192.0.2.1" 9999 [refused; no_lookup] eq_refl).
Defined.

Lemma printReport_connected (stats : ConnectionStats) :
  0 < Connected stats ->
  printReport stats
  = [LogStatisticsTitle;
     LogCounts (Attempted stats) (Connected stats) (Failed stats)
               (successRate stats);
     LogTimesTitle;
     times_line stats].
Proof.
  intros H. unfold printReport.
  destruct (Z.gtb_spec (Connected stats) 0); [reflexivity|lia].
Qed.

Lemma printReport_unconnected (stats : ConnectionStats) :
  Connected stats <= 0 ->
  printReport stats
  = [LogStatisticsTitle;
     LogCounts (Attempted stats) (Connected stats) (Failed stats)
               (successRate stats);
     LogTimesTitle].
Proof.
  intros H. unfold printReport.
  destruct (Z.gtb_spec (Connected stats) 0); [lia|reflexivity].
Qed.

(** C5: the report has the line of the minimum, maximum and average
    latency exactly when [Connected > 0], the average being the total in
    milliseconds over [Connected]; with [Connected = 0], as after a run in
    which every probe failed, the report ends with the title of the
    times. *)
Theorem latency_line_iff_connected :
  (forall stats,
     existsb is_times_line (printReport stats) = true
     <-> 0 < Connected stats) /\
  (forall stats,
     0 < Connected stats ->
     printReport stats
     = [LogStatisticsTitle;
        LogCounts (Attempted stats) (Connected stats) (Failed stats)
                  (successRate stats);
        LogTimesTitle;
        LogTimes (Float64.of_int (Duration.Milliseconds (MinTime stats)))
                 (Float64.of_int (Duration.Milliseconds (MaxTime stats)))
                 (Float64.div
                    (Float64.of_int (Duration.Milliseconds (TotalTime stats)))
                    (Float64.of_int (Connected stats)))]) /\
  (forall stats,
     Connected stats <= 0 ->
     printReport stats
     = [LogStatisticsTitle;
        LogCounts (Attempted stats) (Connected stats) (Failed stats)
                  (successRate stats);
        LogTimesTitle]) /\
  (forall host port ios,
     (forall io, In io ios -> probe_succeeds host port io = false) ->
     let stats := fst (run host port ios new_stats) in
     Connected stats = 0 /\
     existsb is_times_line (printReport stats) = false).
Proof.
  split; [|split; [exact printReport_connected
                  |split; [exact printReport_unconnected|]]].
  - intros stats. destruct (Z_lt_le_dec 0 (Connected stats)) as [H|H].
    + rewrite (printReport_connected stats H). cbn. tauto.
    + rewrite (printReport_unconnected stats H). cbn.
      split; [discriminate|lia].
  - intros host port ios Hall stats.
    assert (Hc : Connected stats = 0).
    { destruct (Aggregator.run_counters host port ios new_stats
                  Aggregator.new_stats_in_range) as (_ & Hc & _).
      fold stats in Hc.
      rewrite Hc, (Aggregator.run_all_failed host port ios Hall).
      reflexivity. }
    split; [exact Hc|]. rewrite printReport_unconnected by lia. reflexivity.
Qed.

Lemma latency_line_iff_connected_witness :
  let stats := fst (run "127.0.0.1" 22 [connects_in 1500000] new_stats) in
  0 < Connected stats /\
  printReport stats
  = [LogStatisticsTitle; LogCounts 1 1 0 Float64.hundred; LogTimesTitle;
     LogTimes Float64.one Float64.one Float64.one].
Proof.
  cbv zeta. split; [reflexivity|].
  destruct latency_line_iff_connected as (_ & H & _).
  rewrite H by reflexivity. vm_compute. reflexivity.
Defined.

End Reporter.

(** ** The parser of addresses *)

Module IPv4Facts.

Import Netip Reading.
Local Open Scope char_scope.
Local Open Scope list_scope.
Local Open Scope Z_scope.

Lemma ascii_list_eqb_eq (a b : list ascii) :
  ascii_list_eqb a b = true -> a = b.
Proof.
  unfold ascii_list_eqb. rewrite String.eqb_eq. intros H.
  rewrite <- (list_ascii_of_string_of_list_ascii a),
          <- (list_ascii_of_string_of_list_ascii b), H.
  reflexivity.
Qed.

Lemma is_digit_digits (c : ascii) : is_digit c = true -> In c digits.
Proof.
  destruct c as [[] [] [] [] [] [] [] []]; intros H;
    try discriminate H; cbn; tauto.
Qed.

Lemma digits_not_dot (c : ascii) : is_digit c = true -> is_dot c = false.
Proof.
  destruct c as [[] [] [] [] [] [] [] []]; intros H; try discriminate H;
    reflexivity.
Qed.

Lemma code_digit (c : ascii) : is_digit c = true -> 0 <= code c - 48 <= 9.
Proof. unfold is_digit. lia. Qed.

Lemma read_digits_app (t1 t2 : list ascii) :
  forall val dl,
  read_digits (t1 ++ t2) val dl
  = match read_digits t1 val dl with
    | Some (v, d) => read_digits t2 v d
    | None => None
    end.
Proof.
  induction t1 as [|c t1 IH]; intros val dl; cbn [app read_digits].
  - reflexivity.
  - destruct (is_digit c); [|reflexivity].
    destruct ((dl =? 1) && (val =? 0)); [reflexivity|].
    destruct (val * 10 + (code c - 48) >? 255); [reflexivity|]. apply IH.
Qed.

Lemma read_digits_length (t : list ascii) :
  forall val dl v d,
  read_digits t val dl = Some (v, d) ->
  d = dl + Z.of_nat (List.length t) /\ Forall (fun c => is_digit c = true) t.
Proof.
  induction t as [|c t IH]; intros val dl v d; cbn [read_digits List.length].
  - intros H. injection H as <- <-. split; [lia|constructor].
  - destruct (is_digit c) eqn:Hc; [|discriminate].
    destruct ((dl =? 1) && (val =? 0)); [discriminate|].
    destruct (val * 10 + (code c - 48) >? 255); [discriminate|].
    intros H. destruct (IH _ _ _ _ H) as [-> HF]. split; [lia|].
    constructor; assumption.
Qed.

(** The loop over a run of digits. *)
Lemma loop_digits (t : list ascii) :
  forall rest prev val pos dl fields,
  Forall (fun c => is_digit c = true) t ->
  parseIPv4_loop (t ++ rest) prev val pos dl fields
  = match read_digits t val dl with
    | Some (v, d) => parseIPv4_loop rest (last_of t prev) v pos d fields
    | None => None
    end.
Proof.
  induction t as [|c t IH]; intros rest prev val pos dl fields HF.
  - reflexivity.
  - inversion HF as [|c' t' Hc Ht]; subst.
    cbn [app parseIPv4_loop read_digits]. rewrite Hc.
    destruct ((dl =? 1) && (val =? 0)); [reflexivity|].
    destruct (val * 10 + (code c - 48) >? 255); [reflexivity|].
    rewrite (IH rest (Some c)) by assumption.
    destruct (read_digits t _ _) as [[v d]|]; [|reflexivity].
    f_equal. unfold last_of. cbn [rev].
    destruct (rev t) as [|x l]; reflexivity.
Qed.

(** Every string opens with a run of digits that the next byte ends. *)
Lemma digit_span (s : list ascii) :
  exists t rest,
    s = t ++ rest /\ Forall (fun c => is_digit c = true) t /\
    match rest with
    | [] => True
    | c :: _ => is_digit c = false
    end.
Proof.
  induction s as [|c s (t & rest & -> & HF & Hr)].
  - exists [], []. repeat split. constructor.
  - destruct (is_digit c) eqn:Hc.
    + exists (c :: t), rest. repeat split; [constructor; assumption|assumption].
    + exists [], (c :: t ++ rest). repeat split; [constructor|assumption].
Qed.

Lemma last_of_digit (t : list ascii) (prev : option ascii) :
  t <> [] -> Forall (fun c => is_digit c = true) t ->
  exists c, last_of t prev = Some c /\ is_digit c = true.
Proof.
  intros Hne HF. unfold last_of.
  destruct (rev t) as [|c l] eqn:Hr.
  - apply (f_equal (@rev ascii)) in Hr. rewrite rev_involutive in Hr.
    contradiction.
  - exists c. split; [reflexivity|].
    rewrite Forall_forall in HF. apply HF. apply in_rev. rewrite Hr.
    left. reflexivity.
Qed.

Lemma octet_range_in (n : Z) : 0 <= n <= 255 -> In n octet_range.
Proof.
  intros H. unfold octet_range. apply in_map_iff. exists (Z.to_nat n).
  split; [lia|]. apply in_seq. lia.
Qed.

Lemma decimal_reads_all : forallb decimal_reads octet_range = true.
Proof. vm_compute. reflexivity. Qed.

Lemma dec_octet_run (l : list ascii) :
  Literal.dec_octet l ->
  (exists v, octet_run l v) /\
  Forall (fun c => is_digit c = true) l /\ (List.length l <= 3)%nat.
Proof.
  intros (n & Hn & ->).
  pose proof decimal_reads_all as H. rewrite forallb_forall in H.
  specialize (H n (octet_range_in n Hn)). unfold decimal_reads in H.
  destruct (Literal.decimal n) as [|c l] eqn:Hd; [discriminate|].
  destruct (read_digits (c :: l) 0 0) as [[v d]|] eqn:Hr; [|discriminate].
  apply andb_true_iff in H. destruct H as [_ Hd3].
  destruct (read_digits_length _ _ _ _ _ Hr) as [Hlen HF].
  split; [|split; [exact HF|lia]].
  exists v. split; [discriminate|]. exists d. exact Hr.
Qed.

Lemma runs_1 : forallb (fun a => run_is_decimal [a]) digits = true.
Proof. vm_compute. reflexivity. Qed.

Lemma runs_2 :
  forallb (fun a => forallb (fun b => run_is_decimal [a; b]) digits) digits
  = true.
Proof. vm_compute. reflexivity. Qed.

Lemma runs_3 :
  forallb (fun a => forallb (fun b => forallb (fun c =>
    run_is_decimal [a; b; c] && three_digits_large [a; b; c])
    digits) digits) digits = true.
Proof. vm_compute. reflexivity. Qed.

Lemma octet_run_dec (t : list ascii) (v : Z) :
  octet_run t v -> Literal.dec_octet t.
Proof.
  intros (Hne & d & Hr).
  destruct (read_digits_length _ _ _ _ _ Hr) as [_ HF].
  assert (Hdec : forall t', run_is_decimal t' = true ->
            forall v' d', read_digits t' 0 0 = Some (v', d') ->
            Literal.dec_octet t').
  { intros t' H v' d' Hr'. unfold run_is_decimal in H. rewrite Hr' in H.
    apply andb_true_iff in H. destruct H as [H Heq].
    apply andb_true_iff in H. destruct H as [H0 H255].
    exists v'. split; [lia|]. apply ascii_list_eqb_eq, Heq. }
  destruct t as [|a [|b [|c [|e r]]]]; [contradiction| | | |].
  - inversion HF as [|? ? Ha _]; subst.
    pose proof runs_1 as H. rewrite forallb_forall in H.
    exact (Hdec _ (H a (is_digit_digits a Ha)) _ _ Hr).
  - inversion HF as [|? ? Ha HF1]; subst. inversion HF1 as [|? ? Hb _]; subst.
    pose proof runs_2 as H. rewrite forallb_forall in H.
    specialize (H a (is_digit_digits a Ha)). rewrite forallb_forall in H.
    exact (Hdec _ (H b (is_digit_digits b Hb)) _ _ Hr).
  - inversion HF as [|? ? Ha HF1]; subst. inversion HF1 as [|? ? Hb HF2]; subst.
    inversion HF2 as [|? ? Hc _]; subst.
    pose proof runs_3 as H. rewrite forallb_forall in H.
    specialize (H a (is_digit_digits a Ha)). rewrite forallb_forall in H.
    specialize (H b (is_digit_digits b Hb)). rewrite forallb_forall in H.
    specialize (H c (is_digit_digits c Hc)).
    apply andb_true_iff in H. destruct H as [H _].
    exact (Hdec _ H _ _ Hr).
  - exfalso.
    inversion HF as [|? ? Ha HF1]; subst. inversion HF1 as [|? ? Hb HF2]; subst.
    inversion HF2 as [|? ? Hc HF3]; subst. inversion HF3 as [|? ? He _]; subst.
    pose proof runs_3 as H. rewrite forallb_forall in H.
    specialize (H a (is_digit_digits a Ha)). rewrite forallb_forall in H.
    specialize (H b (is_digit_digits b Hb)). rewrite forallb_forall in H.
    specialize (H c (is_digit_digits c Hc)).
    apply andb_true_iff in H. destruct H as [_ H].
    change (a :: b :: c :: e :: r) with ([a; b; c] ++ e :: r) in Hr.
    rewrite read_digits_app in Hr. unfold three_digits_large in H.
    destruct (read_digits [a; b; c] 0 0) as [[v3 d3]|] eqn:H3; [|discriminate].
    destruct (read_digits_length _ _ _ _ _ H3) as [-> _].
    cbn [read_digits List.length] in Hr. rewrite He in Hr.
    pose proof (code_digit e He).
    cbn in Hr.
    destruct (Z.gtb_spec (v3 * 10 + (code e - 48)) 255); [discriminate|].
    lia.
Qed.

Lemma is_dot_eq (c : ascii) : is_dot c = true -> c = ".".
Proof. unfold is_dot. apply Ascii.eqb_eq. Qed.

(** One field and the dot that ends it. *)
Lemma loop_field_ok (t : list ascii) (v : Z) (rest : list ascii)
    (prev : option ascii) (pos : Z) (fields : list Z) :
  octet_run t v -> rest <> [] -> pos <> 3 ->
  parseIPv4_loop (t ++ "." :: rest) prev 0 pos 0 fields
  = parseIPv4_loop rest (Some ".") 0 (pos + 1) 0 (fields ++ [v]).
Proof.
  intros (Hne & d & Hr) Hrest Hpos.
  destruct (read_digits_length _ _ _ _ _ Hr) as [_ HF].
  rewrite loop_digits by assumption. rewrite Hr.
  destruct (last_of_digit t prev Hne HF) as (p & -> & Hp).
  cbn [parseIPv4_loop]. change (is_digit ".") with false.
  change (is_dot ".") with true. cbv iota.
  destruct rest as [|c rest]; [contradiction|].
  rewrite (digits_not_dot p Hp).
  destruct (Z.eqb_spec pos 3); [contradiction|reflexivity].
Qed.

Lemma loop_last_ok (t : list ascii) (v : Z) (prev : option ascii)
    (fields : list Z) :
  octet_run t v ->
  parseIPv4_loop t prev 0 3 0 fields = Some (fields ++ [v]).
Proof.
  intros (Hne & d & Hr).
  destruct (read_digits_length _ _ _ _ _ Hr) as [_ HF].
  rewrite <- (app_nil_r t) at 1.
  rewrite loop_digits by assumption. rewrite Hr. reflexivity.
Qed.

Lemma loop_field (s : list ascii) (prev : option ascii) (pos : Z)
    (fields r : list Z) :
  prev = None \/ prev = Some "." -> pos < 3 ->
  parseIPv4_loop s prev 0 pos 0 fields = Some r ->
  exists t v rest,
    octet_run t v /\ s = t ++ "." :: rest /\ rest <> [] /\
    parseIPv4_loop rest (Some ".") 0 (pos + 1) 0 (fields ++ [v]) = Some r.
Proof.
  intros Hprev Hpos H.
  destruct (digit_span s) as (t & rest0 & -> & HF & Hhd).
  rewrite loop_digits in H by assumption.
  destruct (read_digits t 0 0) as [[v d]|] eqn:Hr; [|discriminate].
  destruct rest0 as [|c rest].
  - cbn [parseIPv4_loop] in H.
    destruct (Z.ltb_spec pos 3); [discriminate|lia].
  - cbn [parseIPv4_loop] in H. rewrite Hhd in H.
    destruct (is_dot c) eqn:Hc; [|discriminate].
    apply is_dot_eq in Hc. subst c.
    destruct t as [|a t'].
    + exfalso. unfold last_of in H. cbn [rev] in H.
      destruct Hprev as [-> | ->]; [discriminate|].
      destruct rest; [discriminate|]. change (is_dot ".") with true in H.
      discriminate.
    + destruct (last_of_digit (a :: t') prev ltac:(discriminate) HF)
        as (p & Hl & Hp).
      rewrite Hl in H. destruct rest as [|c rest]; [discriminate|].
      rewrite (digits_not_dot p Hp) in H.
      destruct (Z.eqb_spec pos 3); [discriminate|].
      exists (a :: t'), v, (c :: rest).
      split; [split; [discriminate|eauto]|].
      split; [reflexivity|]. split; [discriminate|exact H].
Qed.

Lemma loop_last (s : list ascii) (fields r : list Z) :
  s <> [] ->
  parseIPv4_loop s (Some ".") 0 3 0 fields = Some r ->
  exists v, octet_run s v.
Proof.
  intros Hne H.
  destruct (digit_span s) as (t & rest0 & -> & HF & Hhd).
  rewrite loop_digits in H by assumption.
  destruct (read_digits t 0 0) as [[v d]|] eqn:Hr; [|discriminate].
  destruct rest0 as [|c rest].
  - rewrite app_nil_r in *. exists v. split; [assumption|eauto].
  - exfalso. cbn [parseIPv4_loop] in H. rewrite Hhd in H.
    destruct (is_dot c); [|discriminate].
    destruct (last_of t (Some ".")) as [p|]; [|discriminate].
    destruct rest; [discriminate|].
    destruct (is_dot p); discriminate.
Qed.

(** [parseIPv4] accepts the IPv4 literals and nothing else. *)
Lemma parseIPv4_iff (s : list ascii) :
  (exists r, parseIPv4 s = Some r) <-> Literal.ipv4 s.
Proof.
  unfold parseIPv4. split.
  - intros [r H].
    destruct (loop_field _ _ 0 _ _ (or_introl eq_refl) ltac:(lia) H)
      as (a & va & s1 & Ha & -> & _ & H1).
    destruct (loop_field _ _ (0 + 1) _ _ (or_intror eq_refl) ltac:(lia) H1)
      as (b & vb & s2 & Hb & -> & _ & H2).
    destruct (loop_field _ _ (0 + 1 + 1) _ _ (or_intror eq_refl) ltac:(lia) H2)
      as (c & vc & s3 & Hc & -> & Hne & H3).
    change (0 + 1 + 1 + 1) with 3 in H3.
    destruct (loop_last _ _ _ Hne H3) as (vd & Hd).
    exists a, b, c, s3. eauto 10 using octet_run_dec.
  - intros (a & b & c & d & Ha & Hb & Hc & Hd & ->).
    destruct (dec_octet_run a Ha) as ((va & Ra) & _).
    destruct (dec_octet_run b Hb) as ((vb & Rb) & _).
    destruct (dec_octet_run c Hc) as ((vc & Rc) & _).
    destruct (dec_octet_run d Hd) as ((vd & Rd) & _).
    assert (Hne : forall t v (x : list ascii), octet_run t v -> t ++ x <> []).
    { intros t v x [Ht _]. destruct t; [contradiction|discriminate]. }
    rewrite (loop_field_ok a va _ _ 0 _ Ra (Hne _ _ _ Rb) ltac:(lia)).
    rewrite (loop_field_ok b vb _ _ (0 + 1) _ Rb (Hne _ _ _ Rc) ltac:(lia)).
    rewrite (loop_field_ok c vc _ _ (0 + 1 + 1) _ Rc (proj1 Rd) ltac:(lia)).
    change (0 + 1 + 1 + 1) with 3.
    rewrite (loop_last_ok d vd) by exact Rd. eauto.
Qed.

(** An IPv4 literal opens with one to three digits and a dot, and is made
    of digits and dots. *)
Lemma ipv4_shape (s : list ascii) :
  Literal.ipv4 s ->
  (exists t rest,
     s = t ++ "." :: rest /\ t <> [] /\ (List.length t <= 3)%nat /\
     Forall (fun c => is_digit c = true) t) /\
  Forall (fun c => is_digit c = true \/ c = ".") s.
Proof.
  intros (a & b & c & d & Ha & Hb & Hc & Hd & ->).
  destruct (dec_octet_run a Ha) as ((va & Hna & _) & HFa & Hla).
  destruct (dec_octet_run b Hb) as (_ & HFb & _).
  destruct (dec_octet_run c Hc) as (_ & HFc & _).
  destruct (dec_octet_run d Hd) as (_ & HFd & _).
  split.
  - exists a, (b ++ "." :: c ++ "." :: d). auto.
  - assert (Hw : forall l, Forall (fun c => is_digit c = true) l ->
               Forall (fun c => is_digit c = true \/ c = ".") l)
      by (intros l; apply Forall_impl; auto).
    repeat (apply Forall_app; split; [auto|]; apply Forall_cons; [auto|]).
    auto.
Qed.

End IPv4Facts.

Module IPv6Facts.

Import Netip Reading.
Local Open Scope char_scope.
Local Open Scope list_scope.
Local Open Scope Z_scope.

Lemma is_hex_existsb (c : ascii) :
  is_hex c = existsb (Ascii.eqb c) hexchars.
Proof. destruct c as [[] [] [] [] [] [] [] []]; reflexivity. Qed.

Lemma is_hex_hexdig (c : ascii) : is_hex c = true <-> Literal.hexdig c.
Proof.
  rewrite is_hex_existsb, existsb_exists. unfold Literal.hexdig.
  fold hexchars. split.
  - intros (x & Hin & Heq). apply Ascii.eqb_eq in Heq. subst x. exact Hin.
  - intros Hin. exists c. split; [exact Hin|apply Ascii.eqb_refl].
Qed.

Lemma hex_value_range (c : ascii) (v : Z) :
  hex_value c = Some v -> 0 <= v <= 15.
Proof.
  unfold hex_value.
  destruct ((48 <=? code c) && (code c <=? 57)) eqn:E1;
    [intros H; injection H as <-; lia|].
  destruct ((97 <=? code c) && (code c <=? 102)) eqn:E2;
    [intros H; injection H as <-; lia|].
  destruct ((65 <=? code c) && (code c <=? 70)) eqn:E3;
    [intros H; injection H as <-; lia|discriminate].
Qed.

Lemma is_hex_separators (c : ascii) :
  is_hex c = true ->
  is_dot c = false /\ is_colon c = false /\ is_percent c = false.
Proof.
  destruct c as [[] [] [] [] [] [] [] []]; intros H; try discriminate H;
    repeat split.
Qed.

Lemma is_digit_hex (c : ascii) : is_digit c = true -> is_hex c = true.
Proof.
  destruct c as [[] [] [] [] [] [] [] []]; intros H; try discriminate H;
    reflexivity.
Qed.

Lemma is_colon_eq (c : ascii) : is_colon c = true -> c = ":".
Proof. unfold is_colon. apply Ascii.eqb_eq. Qed.

Lemma h16_is_hex (g : list ascii) :
  Literal.h16 g ->
  (1 <= List.length g <= 4)%nat /\ Forall (fun c => is_hex c = true) g.
Proof.
  intros [Hl HF]. split; [exact Hl|].
  eapply Forall_impl; [|exact HF]. intros c. apply is_hex_hexdig.
Qed.

Lemma hex_group_app (g : list ascii) (rest : list ascii) :
  ends_number rest ->
  forall off acc,
  Forall (fun c => is_hex c = true) g ->
  0 <= off -> off + Z.of_nat (List.length g) <= 4 ->
  0 <= acc < 16 ^ off ->
  exists acc',
    hex_group (g ++ rest) off acc
    = Some (acc', off + Z.of_nat (List.length g), rest).
Proof.
  intros Hrest. induction g as [|c g IH]; intros off acc HF Hoff Hlen Hacc.
  - cbn [app List.length]. rewrite Z.add_0_r. exists acc.
    destruct rest as [|c rest]; [reflexivity|].
    cbn [hex_group]. cbn in Hrest. unfold is_hex in Hrest.
    destruct (hex_value c); [discriminate|reflexivity].
  - inversion HF as [|? ? Hc HF']; subst. cbn [List.length] in Hlen.
    cbn [app hex_group]. unfold is_hex in Hc.
    destruct (hex_value c) as [v|] eqn:Hv; [|discriminate].
    pose proof (hex_value_range c v Hv) as Hvr.
    assert (Hp : 16 ^ (off + 1) = 16 * 16 ^ off)
      by (rewrite Z.pow_add_r by lia; lia).
    assert (Hp4 : 16 ^ (off + 1) <= 16 ^ 4)
      by (apply Z.pow_le_mono_r; lia).
    change (16 ^ 4) with 65536 in Hp4.
    destruct (Z.gtb_spec off 3); [lia|].
    destruct (Z.gtb_spec (acc * 16 + v) 65535); [lia|].
    destruct (IH (off + 1) (acc * 16 + v) HF') as [acc' ->]; try lia.
    exists acc'.
    replace (off + Z.of_nat (List.length (c :: g)))
      with (off + 1 + Z.of_nat (List.length g))
      by (cbn [List.length]; lia).
    reflexivity.
Qed.

Lemma hex_group_inv (s : list ascii) :
  forall off acc acc' off' rest,
  hex_group s off acc = Some (acc', off', rest) ->
  exists g,
    s = g ++ rest /\ off' = off + Z.of_nat (List.length g) /\
    Forall (fun c => is_hex c = true) g /\ ends_number rest /\
    (g <> [] -> off' <= 4).
Proof.
  induction s as [|c s IH]; intros off acc acc' off' rest H;
    cbn [hex_group] in H.
  - injection H as <- <- <-. exists []. cbn. repeat split; try lia.
    + constructor.
    + intros Hc; contradiction.
  - destruct (hex_value c) as [v|] eqn:Hv.
    + destruct (Z.gtb_spec off 3); [discriminate|].
      destruct (acc * 16 + v >? 65535); [discriminate|].
      destruct (IH _ _ _ _ _ H) as (g & -> & -> & HF & He & Hle).
      exists (c :: g). cbn [app List.length]. repeat split; try lia.
      * constructor; [unfold is_hex; rewrite Hv; reflexivity|exact HF].
      * exact He.
      * intros _. destruct g as [|x g]; [cbn; lia|].
        specialize (Hle ltac:(discriminate)). lia.
    + injection H as <- <- <-. exists []. cbn. repeat split; try lia.
      * constructor.
      * unfold is_hex. rewrite Hv. reflexivity.
      * intros Hc; contradiction.
Qed.

Lemma hex_group_h16 (g rest : list ascii) :
  Literal.h16 g -> ends_number rest ->
  exists acc,
    hex_group (g ++ rest) 0 0 = Some (acc, Z.of_nat (List.length g), rest).
Proof.
  intros Hg Hrest. destruct (h16_is_hex g Hg) as [Hl HF].
  destruct (hex_group_app g rest Hrest 0 0 HF) as [acc H]; try lia.
  exists acc. exact H.
Qed.

Lemma hex_group_number (s : list ascii) (acc off : Z) (rest : list ascii) :
  hex_group s 0 0 = Some (acc, off, rest) -> off <> 0 ->
  exists g, Literal.h16 g /\ s = g ++ rest /\ ends_number rest.
Proof.
  intros H Hoff.
  destruct (hex_group_inv _ _ _ _ _ _ H) as (g & -> & -> & HF & He & Hle).
  exists g. split; [|split; [reflexivity|exact He]].
  destruct g as [|c g]; [cbn in Hoff; lia|].
  specialize (Hle ltac:(discriminate)). split.
  - cbn [List.length] in *. lia.
  - eapply Forall_impl; [|exact HF]. intros x. apply is_hex_hexdig.
Qed.

(** One turn of the loop, once the number at the head of [s] is read. *)
Lemma loop_turn (turns : nat) (s : list ascii) (i ellipsis : Z)
    (ip : list Z) (acc off : Z) (s' : list ascii) :
  i < 16 -> hex_group s 0 0 = Some (acc, off, s') -> off <> 0 ->
  parseIPv6_loop (S turns) s i ellipsis ip
  = if match s' with c :: _ => is_dot c | [] => false end then
      if (ellipsis <? 0) && negb (i =? 12) then None
      else if i + 4 >? 16 then None
      else
        match parseIPv4 s with
        | None => None
        | Some ip4 => Some ([], i + 4, ellipsis, ip ++ ip4)
        end
    else
      match s' with
      | [] => Some ([], i + 2, ellipsis, ip ++ [acc / 256; acc mod 256])
      | c :: s1 =>
          if negb (is_colon c) then None
          else
            match s1 with
            | [] => None
            | c1 :: s2 =>
                if is_colon c1 then
                  if ellipsis >=? 0 then None
                  else
                    match s2 with
                    | [] => Some ([], i + 2, i + 2,
                                  ip ++ [acc / 256; acc mod 256])
                    | _ :: _ =>
                        parseIPv6_loop turns s2 (i + 2) (i + 2)
                          (ip ++ [acc / 256; acc mod 256])
                    end
                else
                  parseIPv6_loop turns s1 (i + 2) ellipsis
                    (ip ++ [acc / 256; acc mod 256])
            end
      end.
Proof.
  intros Hi Hg Hoff. cbn [parseIPv6_loop].
  destruct (Z.ltb_spec i 16); [|lia]. cbn [negb]. rewrite Hg.
  destruct (Z.eqb_spec off 0); [contradiction|]. reflexivity.
Qed.

(** The last number of the string. *)
Lemma loop_last_number (turns : nat) (g : list ascii) (i ellipsis : Z)
    (ip : list Z) :
  i < 16 -> Literal.h16 g ->
  exists ip',
    parseIPv6_loop (S turns) g i ellipsis ip = Some ([], i + 2, ellipsis, ip').
Proof.
  intros Hi Hg.
  destruct (hex_group_h16 g [] Hg I) as [acc Hacc].
  rewrite app_nil_r in Hacc.
  rewrite (loop_turn _ _ _ _ _ _ _ _ Hi Hacc).
  - eauto.
  - destruct Hg as [Hl _]. lia.
Qed.

(** A number, a colon and what follows, which is not a second colon. *)
Lemma loop_colon (turns : nat) (g : list ascii) (c : ascii)
    (s : list ascii) (i ellipsis : Z) (ip : list Z) :
  i < 16 -> Literal.h16 g -> is_colon c = false ->
  exists ip',
    parseIPv6_loop (S turns) (g ++ ":" :: c :: s) i ellipsis ip
    = parseIPv6_loop turns (c :: s) (i + 2) ellipsis ip'.
Proof.
  intros Hi Hg Hc.
  destruct (hex_group_h16 g (":" :: c :: s) Hg eq_refl) as [acc Hacc].
  rewrite (loop_turn _ _ _ _ _ _ _ _ Hi Hacc).
  - cbn. rewrite Hc. eauto.
  - destruct Hg as [Hl _]. lia.
Qed.

(** A number and the ellipsis. *)
Lemma loop_ellipsis (turns : nat) (g q : list ascii) (i ellipsis : Z)
    (ip : list Z) :
  i < 16 -> Literal.h16 g -> ellipsis < 0 ->
  exists ip',
    parseIPv6_loop (S turns) (g ++ ":" :: ":" :: q) i ellipsis ip
    = match q with
      | [] => Some ([], i + 2, i + 2, ip')
      | _ :: _ => parseIPv6_loop turns q (i + 2) (i + 2) ip'
      end.
Proof.
  intros Hi Hg He.
  destruct (hex_group_h16 g (":" :: ":" :: q) Hg eq_refl) as [acc Hacc].
  rewrite (loop_turn _ _ _ _ _ _ _ _ Hi Hacc).
  - cbn. destruct (Z.geb_spec ellipsis 0); [lia|]. eauto.
  - destruct Hg as [Hl _]. lia.
Qed.

(** An IPv4 literal, which ends the string. *)
Lemma loop_ipv4 (turns : nat) (s : list ascii) (i ellipsis : Z)
    (ip : list Z) :
  i < 16 -> Literal.ipv4 s ->
  (0 <= ellipsis \/ i = 12) -> i + 4 <= 16 ->
  exists ip',
    parseIPv6_loop (S turns) s i ellipsis ip = Some ([], i + 4, ellipsis, ip').
Proof.
  intros Hi Hs He Hroom.
  destruct (IPv4Facts.ipv4_shape s Hs) as [(t & rest & -> & Hne & Hl & HF) _].
  assert (Hhex : Forall (fun c => is_hex c = true) t)
    by (eapply Forall_impl; [|exact HF]; apply is_digit_hex).
  destruct (hex_group_app t ("." :: rest) eq_refl 0 0 Hhex) as [acc Hacc];
    try lia.
  rewrite (loop_turn _ _ _ _ _ _ _ _ Hi Hacc).
  - cbn match. change (is_dot ".") with true. cbv iota.
    assert (Hc : (ellipsis <? 0) && negb (i =? 12) = false).
    { destruct (Z.ltb_spec ellipsis 0); [|reflexivity].
      destruct (Z.eqb_spec i 12); [reflexivity|lia]. }
    rewrite Hc. destruct (Z.gtb_spec (i + 4) 16); [lia|].
    apply IPv4Facts.parseIPv4_iff in Hs. destruct Hs as [r ->]. eauto.
  - destruct t; [contradiction|cbn [List.length]; lia].
Qed.

(** What a turn that succeeds has read. *)
Lemma loop_turn_inv (turns : nat) (s : list ascii) (i ellipsis : Z)
    (ip : list Z) (res : list ascii * Z * Z * list Z) :
  i < 16 ->
  parseIPv6_loop (S turns) s i ellipsis ip = Some res ->
  (exists ip', Literal.h16 s /\ res = ([], i + 2, ellipsis, ip')) \/
  (exists g c s1 ip',
     Literal.h16 g /\ s = g ++ ":" :: c :: s1 /\ is_colon c = false /\
     parseIPv6_loop turns (c :: s1) (i + 2) ellipsis ip' = Some res) \/
  (exists g q ip',
     Literal.h16 g /\ s = g ++ ":" :: ":" :: q /\ ellipsis < 0 /\
     match q with
     | [] => res = ([], i + 2, i + 2, ip')
     | _ :: _ => parseIPv6_loop turns q (i + 2) (i + 2) ip' = Some res
     end) \/
  (exists ip',
     Literal.ipv4 s /\ (0 <= ellipsis \/ i = 12) /\ i + 4 <= 16 /\
     res = ([], i + 4, ellipsis, ip')).
Proof.
  intros Hi H.
  destruct (hex_group s 0 0) as [[[acc off] s']|] eqn:Hg.
  2:{ cbn [parseIPv6_loop] in H. rewrite Hg in H.
      destruct (Z.ltb_spec i 16); [discriminate|lia]. }
  destruct (Z.eq_dec off 0) as [->|Hoff].
  { cbn [parseIPv6_loop] in H. rewrite Hg in H.
    destruct (Z.ltb_spec i 16); [|lia]. cbn in H. discriminate. }
  rewrite (loop_turn _ _ _ _ _ _ _ _ Hi Hg Hoff) in H.
  destruct (hex_group_number _ _ _ _ Hg Hoff) as (g & Hh & -> & Hends).
  destruct s' as [|c s1].
  - left. injection H as <-. rewrite app_nil_r. eauto.
  - destruct (is_dot c) eqn:Hdot.
    + right. right. right.
      destruct ((ellipsis <? 0) && negb (i =? 12)) eqn:Hc; [discriminate|].
      destruct (Z.gtb_spec (i + 4) 16); [discriminate|].
      destruct (parseIPv4 (g ++ c :: s1)) as [ip4|] eqn:H4; [|discriminate].
      injection H as <-. eexists. split; [|split; [|split; [lia|reflexivity]]].
      * apply IPv4Facts.parseIPv4_iff. eauto.
      * destruct (Z.ltb_spec ellipsis 0); [|left; lia].
        destruct (Z.eqb_spec i 12); [right; assumption|discriminate].
    + right. destruct (is_colon c) eqn:Hcol; [|discriminate].
      apply is_colon_eq in Hcol. subst c. cbn [negb] in H.
      destruct s1 as [|c1 s2]; [discriminate|].
      destruct (is_colon c1) eqn:Hc1.
      * right. left. apply is_colon_eq in Hc1. subst c1.
        destruct (Z.geb_spec ellipsis 0); [discriminate|].
        exists g, s2. eexists. split; [exact Hh|]. split; [reflexivity|].
        split; [lia|]. destruct s2; [injection H as <-; reflexivity|exact H].
      * left. exists g, c1, s2. eexists. eauto.
Qed.

Lemma pieces_head (v4 : bool) (n : nat) (s : list ascii) :
  Literal.pieces v4 n s ->
  (1 <= n)%nat /\ exists c r, s = c :: r /\ is_hex c = true.
Proof.
  intros H. induction H as [g Hg | s Hv Hs | g n s Hg _ _].
  - split; [lia|]. destruct (h16_is_hex g Hg) as [Hl HF].
    destruct g as [|c g]; [cbn in Hl; lia|].
    inversion HF; subst. eauto.
  - split; [lia|].
    destruct (IPv4Facts.ipv4_shape s Hs) as [(t & rest & -> & Hne & _ & HF) _].
    destruct t as [|c t]; [contradiction|]. inversion HF; subst.
    exists c. eexists. split; [reflexivity|]. apply is_digit_hex. assumption.
  - split; [lia|]. destruct (h16_is_hex g Hg) as [Hl HF].
    destruct g as [|c g]; [cbn in Hl; lia|].
    inversion HF; subst. exists c. eexists. split; [reflexivity|assumption].
Qed.

Lemma pieces_head_not_colon (v4 : bool) (n : nat) (s : list ascii) :
  Literal.pieces v4 n s ->
  exists c r, s = c :: r /\ is_colon c = false.
Proof.
  intros H. destruct (pieces_head v4 n s H) as (_ & c & r & -> & Hc).
  exists c, r. split; [reflexivity|]. apply is_hex_separators. exact Hc.
Qed.

(** What the loop has read when the address is accepted: [k] groups are
    stored when it starts on [s]. *)
Lemma loop_sound (turns : nat) :
  forall s k ellipsis ip,
  (turns + k = 8)%nat -> s <> [] ->
  accepted (parseIPv6_loop turns s (2 * Z.of_nat k) ellipsis ip) ->
  (0 <= ellipsis ->
   exists b, Literal.pieces true b s /\ (k + b <= 7)%nat) /\
  (ellipsis < 0 ->
   Literal.pieces true (8 - k) s \/
   exists a p b q,
     Literal.pieces false a p /\ Literal.opt_pieces true b q /\
     (k + a + b <= 7)%nat /\ s = p ++ ":" :: ":" :: q).
Proof.
  induction turns as [|turns IH]; intros s k ell ip Hk Hs Hacc.
  - exfalso. assert (k = 8%nat) by lia. subst k.
    cbn [accepted] in Hacc. destruct s; [contradiction|exact Hacc].
  - assert (Hi : 2 * Z.of_nat k < 16) by lia.
    destruct (parseIPv6_loop (S turns) s (2 * Z.of_nat k) ell ip)
      as [res|] eqn:Hloop; [|contradiction].
    replace (2 * Z.of_nat k + 2) with (2 * Z.of_nat (S k))
      in * by lia.
    destruct (loop_turn_inv _ _ _ _ _ _ Hi Hloop)
      as [(ip' & Hg & ->)
         |[(g & c & s1 & ip' & Hg & -> & Hc & Hrec)
          |[(g & q & ip' & Hg & -> & Hell & Hq)
           |(ip' & H4 & Hpos & Hroom & ->)]]].
    + replace (2 * Z.of_nat k + 2) with (2 * Z.of_nat (S k)) in * by lia.
      cbn [accepted] in Hacc. split.
      * intros He. exists 1%nat.
        split; [apply Literal.pieces_h16; exact Hg|lia].
      * intros He. left. replace (8 - k)%nat with 1%nat by lia.
        apply Literal.pieces_h16. exact Hg.
    + replace (2 * Z.of_nat k + 2) with (2 * Z.of_nat (S k)) in * by lia.
      rewrite <- Hrec in Hacc.
      destruct (IH (c :: s1) (S k) ell ip' ltac:(lia) ltac:(discriminate) Hacc)
        as [IH1 IH2].
      split.
      * intros He. destruct (IH1 He) as (b & Hb & Hle).
        exists (S b). split; [apply Literal.pieces_cons; assumption|lia].
      * intros He.
        destruct (IH2 He) as [Hp|(a & p & b & q & Hp & Hq & Hle & Heq)].
        -- left. replace (8 - k)%nat with (S (8 - S k)) by lia.
           apply Literal.pieces_cons; assumption.
        -- right. exists (S a), (g ++ ":" :: p), b, q.
           split; [apply Literal.pieces_cons; assumption|].
           split; [exact Hq|].
           split; [lia|]. rewrite Heq, <- app_assoc. reflexivity.
    + replace (2 * Z.of_nat k + 2) with (2 * Z.of_nat (S k)) in * by lia.
      split; [intros He; lia|]. intros _. right.
      exists 1%nat, g. destruct q as [|c q].
      * subst res. cbn [accepted] in Hacc. exists 0%nat, [].
        split; [apply Literal.pieces_h16; exact Hg|]. split; [left; auto|].
        split; [lia|reflexivity].
      * rewrite <- Hq in Hacc.
        destruct (IH (c :: q) (S k) _ ip' ltac:(lia) ltac:(discriminate) Hacc)
          as [IH1 _].
        destruct (IH1 ltac:(lia)) as (b & Hb & Hle).
        exists b, (c :: q). split; [apply Literal.pieces_h16; exact Hg|].
        split; [right; exact Hb|]. split; [lia|reflexivity].
    + cbn [accepted] in Hacc. split.
      * intros He. exists 2%nat.
        split; [apply Literal.pieces_ipv4; auto|lia].
      * intros He. left. replace (8 - k)%nat with 2%nat by lia.
        apply Literal.pieces_ipv4; auto.
Qed.

(** After the ellipsis: pieces that leave room for it are accepted. *)
Lemma loop_complete_after (b : nat) (s : list ascii) :
  Literal.pieces true b s ->
  forall turns k ellipsis ip,
  (turns + k = 8)%nat -> (k + b <= 7)%nat -> 0 <= ellipsis ->
  accepted (parseIPv6_loop turns s (2 * Z.of_nat k) ellipsis ip).
Proof.
  intros H. induction H as [g Hg | s Hv Hs | g n s Hg Hp IH];
    intros turns k ell ip Hk Hle He;
    (destruct turns as [|turns]; [lia|]);
    assert (Hi : 2 * Z.of_nat k < 16) by lia.
  - destruct (loop_last_number turns g _ ell ip Hi Hg) as [ip' ->].
    cbn [accepted]. lia.
  - destruct (loop_ipv4 turns s _ ell ip Hi Hs) as [ip' ->]; try lia.
    cbn [accepted]. lia.
  - destruct (pieces_head_not_colon _ _ _ Hp) as (c & r & -> & Hc).
    destruct (loop_colon turns g c r _ ell ip Hi Hg Hc) as [ip' ->].
    replace (2 * Z.of_nat k + 2) with (2 * Z.of_nat (S k)) by lia.
    apply IH; lia.
Qed.

(** Without ellipsis: eight groups are accepted. *)
Lemma loop_complete_full (n : nat) (s : list ascii) :
  Literal.pieces true n s ->
  forall turns k ellipsis ip,
  (turns + k = 8)%nat -> (k + n = 8)%nat -> ellipsis < 0 ->
  accepted (parseIPv6_loop turns s (2 * Z.of_nat k) ellipsis ip).
Proof.
  intros H. induction H as [g Hg | s Hv Hs | g n s Hg Hp IH];
    intros turns k ell ip Hk Hle He;
    (destruct turns as [|turns]; [lia|]);
    assert (Hi : 2 * Z.of_nat k < 16) by lia.
  - destruct (loop_last_number turns g _ ell ip Hi Hg) as [ip' ->].
    cbn [accepted]. lia.
  - destruct (loop_ipv4 turns s _ ell ip Hi Hs) as [ip' ->]; try lia.
    cbn [accepted]. lia.
  - destruct (pieces_head_not_colon _ _ _ Hp) as (c & r & -> & Hc).
    destruct (loop_colon turns g c r _ ell ip Hi Hg Hc) as [ip' ->].
    replace (2 * Z.of_nat k + 2) with (2 * Z.of_nat (S k)) by lia.
    apply IH; lia.
Qed.

(** Before the ellipsis. *)
Lemma loop_complete_before (a : nat) (p : list ascii) :
  Literal.pieces false a p ->
  forall turns k ellipsis ip b q,
  Literal.opt_pieces true b q ->
  (turns + k = 8)%nat -> (k + a + b <= 7)%nat -> ellipsis < 0 ->
  accepted
    (parseIPv6_loop turns (p ++ ":" :: ":" :: q) (2 * Z.of_nat k) ellipsis ip).
Proof.
  intros H. induction H as [g Hg | s Hv Hs | g n s Hg Hp IH];
    intros turns k ell ip b q Hq Hk Hle He;
    (destruct turns as [|turns]; [lia|]);
    assert (Hi : 2 * Z.of_nat k < 16) by lia.
  - destruct (loop_ellipsis turns g q _ ell ip Hi Hg He) as [ip' ->].
    replace (2 * Z.of_nat k + 2) with (2 * Z.of_nat (S k)) by lia.
    destruct Hq as [[-> ->]|Hq].
    + cbn [accepted]. lia.
    + destruct (pieces_head _ _ _ Hq) as (_ & c & r & -> & _).
      apply (loop_complete_after b (c :: r) Hq); lia.
  - discriminate.
  - destruct (pieces_head_not_colon _ _ _ Hp) as (c & r & -> & Hc).
    rewrite <- app_assoc. cbn [app].
    destruct (loop_colon turns g c (r ++ ":" :: ":" :: q) _ ell ip Hi Hg Hc)
      as [ip' ->].
    replace (2 * Z.of_nat k + 2) with (2 * Z.of_nat (S k)) by lia.
    apply (IH turns (S k) ell ip' b q Hq); lia.
Qed.

Lemma cut_zone_none (s : list ascii) :
  Forall (fun c => is_percent c = false) s -> cut_zone s = (s, None).
Proof.
  induction 1 as [|c s Hc _ IH]; cbn [cut_zone].
  - reflexivity.
  - rewrite Hc, IH. reflexivity.
Qed.

Lemma cut_zone_inv (s s' : list ascii) :
  cut_zone s = (s', None) -> s' = s.
Proof.
  revert s'. induction s as [|c s IH]; intros s' H; cbn [cut_zone] in H.
  - injection H as <-. reflexivity.
  - destruct (is_percent c); [discriminate|].
    destruct (cut_zone s) as [a z]. injection H as <- ->.
    f_equal. apply IH. reflexivity.
Qed.

Lemma parseIPv6_zone (s : list ascii) :
  parseIPv6 s
  = match cut_zone s with
    | (_, Some []) => None
    | (s', Some (c :: zn)) =>
        option_map (fun ip => (ip, c :: zn)) (parseIPv6_plain s')
    | (s', None) => option_map (fun ip => (ip, [])) (parseIPv6_plain s')
    end.
Proof.
  unfold parseIPv6, parseIPv6_plain.
  destruct (cut_zone s) as [s' [[|c zn]|]]; [reflexivity| |].
  - destruct (match s' with
              | c0 :: c1 :: r =>
                  if is_colon c0 && is_colon c1 then (r, 0) else (s', -1)
              | _ => (s', -1)
              end) as [s0 e0].
    destruct ((e0 =? 0) && match s0 with [] => true | _ => false end);
      [reflexivity|].
    destruct (parseIPv6_loop 8 s0 0 e0 []) as [[[[s1 i1] e1] ip1]|];
      [|reflexivity].
    destruct s1; [|reflexivity].
    destruct (i1 <? 16); [destruct (e1 <? 0)|destruct (e1 >=? 0)]; reflexivity.
  - destruct (match s' with
              | c0 :: c1 :: r =>
                  if is_colon c0 && is_colon c1 then (r, 0) else (s', -1)
              | _ => (s', -1)
              end) as [s0 e0].
    destruct ((e0 =? 0) && match s0 with [] => true | _ => false end);
      [reflexivity|].
    destruct (parseIPv6_loop 8 s0 0 e0 []) as [[[[s1 i1] e1] ip1]|];
      [|reflexivity].
    destruct s1; [|reflexivity].
    destruct (i1 <? 16); [destruct (e1 <? 0)|destruct (e1 >=? 0)]; reflexivity.
Qed.

(** The checks after the loop. *)
Lemma final_checks (res : option (list ascii * Z * Z * list Z)) :
  (exists r,
     match res with
     | None => None
     | Some (s, i, ellipsis, ip) =>
         match s with
         | _ :: _ => None
         | [] =>
             if i <? 16 then
               if ellipsis <? 0 then None
               else Some (expand ip i ellipsis)
             else if ellipsis >=? 0 then None
             else Some ip
         end
     end = Some r) <-> accepted res.
Proof.
  destruct res as [[[[s i] e] ip]|]; cbn [accepted].
  - destruct s.
    + destruct (Z.ltb_spec i 16), (Z.ltb_spec e 0), (Z.geb_spec e 0);
        split; try lia; try (intros [? ?]; discriminate); eauto.
    + split; [intros [r H]; discriminate|contradiction].
  - split; [intros [r H]; discriminate|contradiction].
Qed.

Lemma parseIPv6_plain_iff (s : list ascii) :
  (exists r, parseIPv6_plain s = Some r) <-> Literal.ipv6 s.
Proof.
  assert (Hplain : forall s0,
    match s0 with
    | c0 :: c1 :: _ => is_colon c0 && is_colon c1 = false
    | _ => True
    end ->
    ((exists r, parseIPv6_plain s0 = Some r) <->
     accepted (parseIPv6_loop 8 s0 0 (-1) []))).
  { intros s0 H0. unfold parseIPv6_plain.
    assert (E : match s0 with
                | c0 :: c1 :: r =>
                    if is_colon c0 && is_colon c1 then (r, 0) else (s0, -1)
                | _ => (s0, -1)
                end = (s0, -1)).
    { destruct s0 as [|c0 [|c1 r]]; try reflexivity. rewrite H0. reflexivity. }
    rewrite E. cbn [Z.eqb andb]. apply final_checks. }
  destruct s as [|c0 [|c1 r]].
  - (* the empty string *)
    rewrite (Hplain [] I). cbn. split; [contradiction|].
    intros [H|(a & p & b & q & _ & _ & _ & H)].
    + destruct (pieces_head _ _ _ H) as (_ & c & r & Hc & _). discriminate.
    + destruct p; discriminate.
  - (* one byte *)
    rewrite (Hplain [c0] I). split.
    + intros H.
      destruct (loop_sound 8 [c0] 0 (-1) [] eq_refl ltac:(discriminate) H)
        as [_ H2].
      destruct (H2 ltac:(lia)) as [Hp|(a & p & b & q & Hp & Hq & Hle & Heq)].
      * left. exact Hp.
      * right. exists a, p, b, q. split; [right; exact Hp|auto].
    + intros [H|(a & p & b & q & Hp & _ & _ & H)].
      * apply (loop_complete_full 8 [c0] H 8%nat 0%nat); lia.
      * destruct p as [|x [|y p]]; discriminate.
  - destruct (is_colon c0 && is_colon c1) eqn:Hcc.
    + (* a leading ellipsis *)
      apply andb_true_iff in Hcc. destruct Hcc as [H0 H1].
      apply is_colon_eq in H0, H1. subst c0 c1.
      unfold parseIPv6_plain. change (is_colon ":") with true.
      cbn [andb Z.eqb].
      assert (Hlead : forall q,
                Literal.ipv6 (":" :: ":" :: q) <->
                exists b, Literal.opt_pieces true b q /\ (b <= 7)%nat).
      { intros q. split.
        - intros [H|(a & p & b & q' & Hp & Hq & Hle & Heq)].
          + destruct (pieces_head _ _ _ H) as (_ & c & r' & Hc & Hx).
            injection Hc as <- _. discriminate.
          + destruct Hp as [[-> ->]|Hp].
            * injection Heq as <-. exists b. split; [exact Hq|lia].
            * destruct (pieces_head _ _ _ Hp) as (_ & c & r' & -> & Hx).
              injection Heq as <- _. discriminate.
        - intros (b & Hq & Hle). right. exists 0%nat, [], b, q.
          split; [left; auto|]. split; [exact Hq|]. split; [lia|reflexivity]. }
      rewrite Hlead. destruct r as [|c r].
      * split; [|eauto]. intros _. exists 0%nat. split; [left; auto|lia].
      * cbv iota. rewrite final_checks. split.
        -- intros H.
           destruct (loop_sound 8 (c :: r) 0 0 [] eq_refl ltac:(discriminate) H)
             as [H1 _].
           destruct (H1 ltac:(lia)) as (b & Hb & Hle).
           exists b. split; [right; exact Hb|lia].
        -- intros (b & [[_ Hq]|Hq] & Hle); [discriminate|].
           apply (loop_complete_after b (c :: r) Hq 8%nat 0%nat); lia.
    + (* no leading ellipsis *)
      rewrite (Hplain (c0 :: c1 :: r) Hcc). split.
      * intros H.
        destruct (loop_sound 8 (c0 :: c1 :: r) 0 (-1) [] eq_refl
                    ltac:(discriminate) H) as [_ H2].
        destruct (H2 ltac:(lia)) as [Hp|(a & p & b & q & Hp & Hq & Hle & Heq)].
        -- left. exact Hp.
        -- right. exists a, p, b, q. split; [right; exact Hp|auto].
      * intros [H|(a & p & b & q & Hp & Hq & Hle & Heq)].
        -- apply (loop_complete_full 8 _ H 8%nat 0%nat); lia.
        -- destruct Hp as [[-> ->]|Hp].
           ++ injection Heq as -> -> _.
              change (is_colon ":") with true in Hcc. discriminate.
           ++ rewrite Heq.
              apply (loop_complete_before a p Hp 8%nat 0%nat (-1) [] b q Hq);
                lia.
Qed.

End IPv6Facts.

Module ParseIPFacts.

Import Netip Reading.
Local Open Scope char_scope.
Local Open Scope list_scope.
Local Open Scope Z_scope.

Lemma pieces_no_percent (v4 : bool) (n : nat) (s : list ascii) :
  Literal.pieces v4 n s -> Forall (fun c => is_percent c = false) s.
Proof.
  assert (Hh : forall g, Literal.h16 g ->
                 Forall (fun c => is_percent c = false) g).
  { intros g Hg. destruct (IPv6Facts.h16_is_hex g Hg) as [_ HF].
    eapply Forall_impl; [|exact HF].
    intros c Hc. apply IPv6Facts.is_hex_separators. exact Hc. }
  intros H. induction H as [g Hg | s Hv Hs | g n s Hg _ IH].
  - auto.
  - destruct (IPv4Facts.ipv4_shape s Hs) as [_ HF].
    eapply Forall_impl; [|exact HF].
    intros c [Hc| ->]; [|reflexivity].
    apply IPv6Facts.is_hex_separators, IPv6Facts.is_digit_hex, Hc.
  - apply Forall_app. split; [auto|]. constructor; [reflexivity|exact IH].
Qed.

Lemma ipv6_no_percent (s : list ascii) :
  Literal.ipv6 s -> Forall (fun c => is_percent c = false) s.
Proof.
  assert (Ho : forall v4 n q, Literal.opt_pieces v4 n q ->
                 Forall (fun c => is_percent c = false) q).
  { intros v4 n q [[_ ->]|H]; [constructor|].
    exact (pieces_no_percent _ _ _ H). }
  intros [H|(a & p & b & q & Hp & Hq & _ & ->)].
  - exact (pieces_no_percent _ _ _ H).
  - apply Forall_app. split; [eauto|].
    constructor; [reflexivity|]. constructor; [reflexivity|eauto].
Qed.

(** An IPv6 literal has a colon after at most four hexadecimal digits. *)
Lemma ipv6_shape (s : list ascii) :
  Literal.ipv6 s ->
  exists t rest,
    s = t ++ ":" :: rest /\ Forall (fun c => is_hex c = true) t.
Proof.
  assert (Hp : forall v4 n p rest, Literal.pieces v4 n p ->
            (3 <= n)%nat \/ v4 = false ->
            exists t rest',
              p ++ ":" :: rest = t ++ ":" :: rest' /\
              Forall (fun c => is_hex c = true) t).
  { intros v4 n p rest H Hn.
    destruct H as [g Hg | s' Hv Hs | g n s' Hg _].
    - exists g, rest. split; [reflexivity|].
      apply IPv6Facts.h16_is_hex, Hg.
    - destruct Hn as [Hn| ->]; [lia|discriminate].
    - exists g, (s' ++ ":" :: rest). rewrite <- app_assoc.
      split; [reflexivity|]. apply IPv6Facts.h16_is_hex, Hg. }
  intros [H|(a & p & b & q & Ha & _ & _ & ->)].
  - inversion H as [g Hg | s' Hv Hs | g n s' Hg Hs']; subst.
    exists g, s'. split; [reflexivity|]. apply IPv6Facts.h16_is_hex, Hg.
  - destruct Ha as [[_ ->]|Ha].
    + exists [], (":" :: q). split; [reflexivity|constructor].
    + apply (Hp false a p (":" :: q) Ha). right. reflexivity.
Qed.

(** [ParseAddr] looks past the hexadecimal digits. *)
Lemma ParseAddr_from_hex (s t rest : list ascii) :
  Forall (fun c => is_hex c = true) t ->
  ParseAddr_from s (t ++ rest) = ParseAddr_from s rest.
Proof.
  induction 1 as [|c t Hc _ IH]; [reflexivity|].
  cbn [app ParseAddr_from].
  destruct (IPv6Facts.is_hex_separators c Hc) as (-> & -> & ->). exact IH.
Qed.

Lemma ParseAddr_from_inv (s rest : list ascii) (x : list Z * list ascii) :
  ParseAddr_from s rest = Some x ->
  (exists ip4, parseIPv4 s = Some ip4 /\ x = (v4_in_v6 ip4, [])) \/
  parseIPv6 s = Some x.
Proof.
  induction rest as [|c rest IH]; cbn [ParseAddr_from]; [discriminate|].
  destruct (is_dot c).
  - destruct (parseIPv4 s) as [ip4|]; [|discriminate].
    intros H. injection H as <-. left. eauto.
  - destruct (is_colon c); [auto|].
    destruct (is_percent c); [discriminate|exact IH].
Qed.

Lemma parseIPv6_iff (s : list ascii) :
  (exists r, parseIPv6 s = Some (r, [])) <-> Literal.ipv6 s.
Proof.
  rewrite IPv6Facts.parseIPv6_zone.
  rewrite <- IPv6Facts.parseIPv6_plain_iff. split.
  - intros [r H]. destruct (cut_zone s) as [s' [[|c zn]|]] eqn:Hz.
    + discriminate.
    + destruct (parseIPv6_plain s'); discriminate.
    + apply IPv6Facts.cut_zone_inv in Hz. subst s'.
      destruct (parseIPv6_plain s) as [ip|]; [eauto|discriminate].
  - intros [r H].
    assert (Hs : Literal.ipv6 s)
      by (apply IPv6Facts.parseIPv6_plain_iff; eauto).
    rewrite (IPv6Facts.cut_zone_none s (ipv6_no_percent s Hs)), H.
    cbn. eauto.
Qed.

Lemma ParseAddr_iff (s : list ascii) :
  (exists ip, ParseAddr s = Some (ip, [])) <->
  Literal.ipv4 s \/ Literal.ipv6 s.
Proof.
  unfold ParseAddr. split.
  - intros [ip H]. apply ParseAddr_from_inv in H.
    destruct H as [(ip4 & H4 & _)|H6].
    + left. apply IPv4Facts.parseIPv4_iff. eauto.
    + right. apply parseIPv6_iff. eauto.
  - intros [H4|H6].
    + destruct (IPv4Facts.ipv4_shape s H4)
        as [(t & rest & Heq & _ & _ & HF) _].
      apply IPv4Facts.parseIPv4_iff in H4. destruct H4 as [ip4 H4].
      assert (Hscan : forall s0,
                ParseAddr_from s0 s = ParseAddr_from s0 ("." :: rest)).
      { intros s0. rewrite Heq. apply ParseAddr_from_hex.
        eapply Forall_impl; [|exact HF]. apply IPv6Facts.is_digit_hex. }
      rewrite Hscan. cbn [ParseAddr_from]. change (is_dot ".") with true.
      cbv iota.
      rewrite H4. eauto.
    + destruct (ipv6_shape s H6) as (t & rest & Heq & HF).
      apply parseIPv6_iff in H6. destruct H6 as [ip H6].
      assert (Hscan : forall s0,
                ParseAddr_from s0 s = ParseAddr_from s0 (":" :: rest)).
      { intros s0. rewrite Heq. apply ParseAddr_from_hex. exact HF. }
      rewrite Hscan. cbn [ParseAddr_from]. change (is_dot ":") with false.
      change (is_colon ":") with true. cbv iota. eauto.
Qed.

End ParseIPFacts.

(** ** Validator *)

Module Validator.

(** C7: [isValidPort n] is true exactly when [0 <= n <= 65535]; it is true
    of 0 and of 65535 and false of 65536 and of -1. *)
Theorem isValidPort_iff (n : Z) :
  (isValidPort n = true <-> 0 <= n <= 65535) /\
  isValidPort 0 = true /\ isValidPort 65535 = true /\
  isValidPort 65536 = false /\ isValidPort (-1) = false.
Proof.
  split; [|repeat split].
  unfold isValidPort. rewrite andb_true_iff, Z.geb_le, Z.leb_le. tauto.
Qed.

(** C8: [isValidIP s] is true exactly when [s] is an IPv4 literal (four
    decimal octets without leading zeros, separated by dots) or an IPv6
    literal (eight groups of one to four hexadecimal digits, the last two
    possibly written as an IPv4 literal, with at most one [::] for the
    groups left out); it is true of "192.168.1.1" and "::1", false of
    "999.1.1.1" and "not-an-ip".  It is a function of the string alone. *)
Theorem isValidIP_iff_literal (s : string) :
  (isValidIP s = true <-> Literal.ip_literal s) /\
  isValidIP "192.168.1.1" = true /\ isValidIP "::1" = true /\
  isValidIP "999.1.1.1" = false /\ isValidIP "not-an-ip" = false.
Proof.
  split; [|repeat split].
  unfold Literal.ip_literal.
  rewrite <- ParseIPFacts.ParseAddr_iff. unfold isValidIP, ParseIP.
  destruct (Netip.ParseAddr (list_ascii_of_string s)) as [[ip [|c z]]|].
  - split; eauto.
  - split; [discriminate|]. intros [ip' H]. discriminate.
  - split; [discriminate|]. intros [ip' H]. discriminate.
Qed.

End Validator.

(** ** Latency of a run *)

Module Latency.

Section Run.

Variable host : string.
Variable port : Z.

(** The record after a run is the record after the successes alone, but
    for [Failed]. *)
Lemma run_successes (ios : list probe_io) :
  forall stats,
  let stats' := fst (run host port ios stats) in
  let folded :=
    fold_left (fun st d => record_success d st) (durations host port ios)
      stats in
  Attempted stats' = Attempted folded /\
  Connected stats' = Connected folded /\
  MinTime stats' = MinTime folded /\ MaxTime stats' = MaxTime folded /\
  TotalTime stats' = TotalTime folded.
Proof.
  induction ios as [|io ios IH]; intros stats; cbv zeta.
  - cbn. auto.
  - rewrite Aggregator.run_cons. unfold durations. cbn [filter].
    destruct (probe_succeeds host port io) eqn:Hs.
    + rewrite Aggregator.ping_success by assumption. cbn [map fold_left].
      apply IH.
    + rewrite Aggregator.ping_failure by assumption.
      destruct (IH (fail_probe stats)) as (Ha & Hc & Hm & Hx & Ht).
      fold (durations host port ios) in *.
      rewrite Ha, Hc, Hm, Hx, Ht. clear.
      generalize (durations host port ios) as ds. intros ds.
      revert stats. induction ds as [|d ds IHd]; intros stats.
      * cbn. auto.
      * cbn [fold_left].
        assert (E : record_success d (fail_probe stats)
                    = fail_probe (record_success d stats)) by reflexivity.
        rewrite E. apply IHd.
Qed.

Lemma fold_total (ds : list Z) :
  forall stats,
  Int64.wrap
    (TotalTime (fold_left (fun st d => record_success d st) ds stats))
  = Int64.wrap (TotalTime stats + fold_right Z.add 0 ds).
Proof.
  induction ds as [|d ds IH]; intros stats; cbn [fold_left fold_right].
  - rewrite Z.add_0_r. reflexivity.
  - rewrite IH. unfold record_success at 1. cbn [TotalTime].
    unfold Int64.add. rewrite Int64Facts.wrap_add_l. f_equal. lia.
Qed.

Lemma fold_total_in_range (ds : list Z) :
  forall stats, Int64.in_range (TotalTime stats) ->
  Int64.in_range
    (TotalTime (fold_left (fun st d => record_success d st) ds stats)).
Proof.
  induction ds as [|d ds IH]; intros stats H; cbn [fold_left].
  - exact H.
  - apply IH. unfold record_success, Int64.add. cbn [TotalTime].
    auto with int64.
Qed.

Lemma fold_max (ds : list Z) :
  forall stats,
  MaxTime (fold_left (fun st d => record_success d st) ds stats)
  = fold_left Z.max ds (MaxTime stats).
Proof.
  induction ds as [|d ds IH]; intros stats; cbn [fold_left].
  - reflexivity.
  - rewrite IH. f_equal. unfold record_success. cbn [MaxTime].
    destruct (Z.gtb_spec d (MaxTime stats)); lia.
Qed.

Lemma fold_left_max_spec (ds : list Z) :
  forall m,
  m <= fold_left Z.max ds m /\
  (forall d, In d ds -> d <= fold_left Z.max ds m) /\
  (fold_left Z.max ds m = m \/ In (fold_left Z.max ds m) ds).
Proof.
  induction ds as [|d ds IH]; intros m; cbn [fold_left].
  - split; [lia|]. split; [intros d []|left; reflexivity].
  - destruct (IH (Z.max m d)) as (H1 & H2 & H3).
    remember (fold_left Z.max ds (Z.max m d)) as r. split; [lia|]. split.
    + intros x [<-|Hx]; [lia|auto].
    + destruct H3 as [H3|H3]; [|right; right; exact H3].
      destruct (Z.max_spec m d) as [[_ E]|[_ E]].
      * right. left. congruence.
      * left. congruence.
Qed.

Lemma fold_left_min_spec (ds : list Z) :
  forall m,
  fold_left Z.min ds m <= m /\
  (forall d, In d ds -> fold_left Z.min ds m <= d) /\
  (fold_left Z.min ds m = m \/ In (fold_left Z.min ds m) ds).
Proof.
  induction ds as [|d ds IH]; intros m; cbn [fold_left].
  - split; [lia|]. split; [intros d []|left; reflexivity].
  - destruct (IH (Z.min m d)) as (H1 & H2 & H3).
    remember (fold_left Z.min ds (Z.min m d)) as r. split; [lia|]. split.
    + intros x [<-|Hx]; [lia|auto].
    + destruct H3 as [H3|H3]; [|right; right; exact H3].
      destruct (Z.min_spec m d) as [[_ E]|[_ E]].
      * left. congruence.
      * right. left. congruence.
Qed.

Lemma since_last_zero_none (ds : list Z) :
  existsb (Z.eqb 0) ds = false -> since_last_zero ds = ds.
Proof.
  destruct ds as [|d rest]; [reflexivity|]. cbn [existsb since_last_zero].
  intros H. apply orb_false_iff in H. destruct H as [Hd Hr].
  rewrite Hr. rewrite Z.eqb_sym, Hd. reflexivity.
Qed.

(** The minimum that the record holds, for a record that holds [m]. *)
Lemma fold_min (ds : list Z) :
  forall stats,
  0 <= MinTime stats -> Forall (fun d => 0 <= d) ds ->
  MinTime (fold_left (fun st d => record_success d st) ds stats)
  = if existsb (Z.eqb 0) ds then
      match since_last_zero ds with
      | [] => 0
      | d :: r => minimum d r
      end
    else if MinTime stats =? 0 then
      match ds with
      | [] => 0
      | d :: r => minimum d r
      end
    else minimum (MinTime stats) ds.
Proof.
  induction ds as [|d rest IH]; intros stats Hm HF.
  - cbn. destruct (Z.eqb_spec (MinTime stats) 0); [auto|reflexivity].
  - inversion HF as [|? ? Hd HF']; subst. cbn [fold_left].
    set (st1 := record_success d stats).
    assert (E1 : MinTime st1
                 = if MinTime stats =? 0 then d else Z.min (MinTime stats) d).
    { unfold st1, record_success. cbn [MinTime].
      destruct (Z.eqb_spec (MinTime stats) 0); cbn [orb]; [reflexivity|].
      destruct (Z.ltb_spec d (MinTime stats)); lia. }
    assert (H1 : 0 <= MinTime st1)
      by (rewrite E1; destruct (MinTime stats =? 0); lia).
    rewrite (IH st1 H1 HF'). cbn [existsb since_last_zero].
    destruct (existsb (Z.eqb 0) rest) eqn:Hz.
    + rewrite orb_true_r. reflexivity.
    + rewrite orb_false_r. destruct (Z.eqb_spec 0 d) as [<-|Hnz].
      * cbn [Z.eqb]. rewrite E1.
        assert (E0 : (if MinTime stats =? 0 then 0 else Z.min (MinTime stats) 0)
                     = 0) by (destruct (MinTime stats =? 0); lia).
        rewrite E0. reflexivity.
      * assert (Hpos : 0 < d) by lia.
        destruct (Z.eqb_spec (MinTime st1) 0) as [E|_].
        { rewrite E1 in E. destruct (Z.eqb_spec (MinTime stats) 0); lia. }
        rewrite E1. unfold minimum. cbn [fold_left].
        destruct (Z.eqb_spec (MinTime stats) 0); reflexivity.
Qed.

Lemma durations_in (d : Z) (ios : list probe_io) :
  In d (durations host port ios) <->
  exists io,
    In io ios /\ probe_succeeds host port io = true /\ io_elapsed io = d.
Proof.
  unfold durations. rewrite in_map_iff. split.
  - intros (io & E & Hin). apply filter_In in Hin. exists io. tauto.
  - intros (io & Hin & Hs & E). exists io. rewrite filter_In. tauto.
Qed.

(** [TotalTime] is the sum of the durations of the successes, reduced to
    64 bits; it is the sum itself when the sum fits. *)
Theorem total_is_sum_of_durations (ios : list probe_io) :
  let stats := fst (run host port ios new_stats) in
  let sum := fold_right Z.add 0 (durations host port ios) in
  TotalTime stats = Int64.wrap sum /\
  (Int64.in_range sum -> TotalTime stats = sum).
Proof.
  cbv zeta.
  destruct (run_successes ios new_stats) as (_ & _ & _ & _ & ->).
  assert (E : TotalTime
                (fold_left (fun st d => record_success d st)
                   (durations host port ios) new_stats)
              = Int64.wrap (fold_right Z.add 0 (durations host port ios))).
  { rewrite <- (Int64Facts.wrap_id _
                  (fold_total_in_range (durations host port ios) new_stats
                     Int64Facts.zero_in_range)).
    rewrite fold_total. reflexivity. }
  split; [exact E|]. intros H. rewrite E. apply Int64Facts.wrap_id, H.
Qed.

(** [MaxTime] is the greatest measured duration, or 0 when none is
    positive: no duration exceeds it, and it is one of them or 0. *)
Theorem max_is_greatest_duration (ios : list probe_io) :
  let stats := fst (run host port ios new_stats) in
  MaxTime stats = maximum0 (durations host port ios) /\
  (forall io, In io ios -> probe_succeeds host port io = true ->
              io_elapsed io <= MaxTime stats) /\
  (MaxTime stats = 0 \/
   exists io, In io ios /\ probe_succeeds host port io = true /\
              io_elapsed io = MaxTime stats).
Proof.
  cbv zeta.
  destruct (run_successes ios new_stats) as (_ & _ & _ & -> & _).
  rewrite fold_max. cbn [new_stats MaxTime].
  fold (maximum0 (durations host port ios)).
  destruct (fold_left_max_spec (durations host port ios) 0) as (_ & H2 & H3).
  split; [reflexivity|]. split.
  - intros io Hin Hs. apply H2. apply durations_in. eauto.
  - destruct H3 as [H3|H3]; [left; exact H3|right].
    apply durations_in in H3. exact H3.
Qed.

Lemma run_min_closed_form (ios : list probe_io) :
  (forall io, In io ios -> probe_succeeds host port io = true ->
              0 <= io_elapsed io) ->
  MinTime (fst (run host port ios new_stats))
  = match since_last_zero (durations host port ios) with
    | [] => 0
    | d :: r => minimum d r
    end.
Proof.
  intros Hpos.
  destruct (run_successes ios new_stats) as (_ & _ & -> & _ & _).
  rewrite fold_min.
  - cbn [new_stats MinTime Z.eqb].
    destruct (existsb (Z.eqb 0) (durations host port ios)) eqn:Hz;
      [reflexivity|].
    rewrite (since_last_zero_none _ Hz). reflexivity.
  - cbn. lia.
  - apply Forall_forall. intros d Hd. apply durations_in in Hd.
    destruct Hd as (io & Hin & Hs & <-). auto.
Qed.

(** With durations that are not negative, [MinTime] is the least of the
    durations measured since the last success that measured 0, and 0 when
    there is none. *)
Theorem min_since_last_zero (ios : list probe_io) :
  (forall io, In io ios -> probe_succeeds host port io = true ->
              0 <= io_elapsed io) ->
  MinTime (fst (run host port ios new_stats))
  = match since_last_zero (durations host port ios) with
    | [] => 0
    | d :: r => minimum d r
    end.
Proof. exact (run_min_closed_form ios). Qed.

(** When every success measures a positive duration, [MinTime] is the
    least of them: no duration is below it, and it is one of them as soon
    as one probe has connected. *)
Theorem min_is_least_positive_duration (ios : list probe_io) :
  (forall io, In io ios -> probe_succeeds host port io = true ->
              0 < io_elapsed io) ->
  let stats := fst (run host port ios new_stats) in
  (forall io, In io ios -> probe_succeeds host port io = true ->
              MinTime stats <= io_elapsed io) /\
  (durations host port ios <> [] ->
   exists io, In io ios /\ probe_succeeds host port io = true /\
              io_elapsed io = MinTime stats).
Proof.
  intros Hpos. cbv zeta.
  rewrite run_min_closed_form
    by (intros io Hin Hs; specialize (Hpos io Hin Hs); lia).
  assert (Hz : existsb (Z.eqb 0) (durations host port ios) = false).
  { destruct (existsb (Z.eqb 0) (durations host port ios)) eqn:E;
      [|reflexivity].
    apply existsb_exists in E. destruct E as (d & Hd & E0).
    apply Z.eqb_eq in E0. subst d. apply durations_in in Hd.
    destruct Hd as (io & Hin & Hs & E). specialize (Hpos io Hin Hs). lia. }
  rewrite (since_last_zero_none _ Hz).
  assert (Hin_d : forall d, In d (durations host port ios) <->
            exists io, In io ios /\ probe_succeeds host port io = true /\
                       io_elapsed io = d) by (intros; apply durations_in).
  destruct (durations host port ios) as [|d r].
  - split; [|intros H; contradiction].
    intros io Hin Hs. exfalso. apply (proj2 (Hin_d (io_elapsed io))). eauto.
  - unfold minimum.
    destruct (fold_left_min_spec r d) as (H1 & H2 & H3). split.
    + intros io Hin Hs.
      destruct (proj2 (Hin_d (io_elapsed io))) as [<-|Hr]; eauto.
    + intros _. apply Hin_d. destruct H3 as [->|H3]; [left|right]; auto.
Qed.

(** From the zero record the minimum never exceeds the maximum, whatever
    the probes measure. *)
Theorem min_never_exceeds_max (ios : list probe_io) :
  MinTime (fst (run host port ios new_stats))
  <= MaxTime (fst (run host port ios new_stats)).
Proof. apply Aggregator.run_min_le_max. cbn. lia. Qed.

(** When every success measures a positive duration and the durations add
    up within [int64], the total lies between [Connected] times the
    minimum and [Connected] times the maximum: the average is between the
    extrema. *)
Theorem average_between_extrema (ios : list probe_io) :
  (forall io, In io ios -> probe_succeeds host port io = true ->
              0 < io_elapsed io) ->
  fold_right Z.add 0 (durations host port ios) <= Int64.max_int ->
  let stats := fst (run host port ios new_stats) in
  0 < Connected stats ->
  MinTime stats * Connected stats <= TotalTime stats
    <= MaxTime stats * Connected stats.
Proof.
  intros Hpos Hsum stats Hc.
  apply (Aggregator.run_average_between_extrema host port ios Hpos Hsum Hc).
Qed.

End Run.

Lemma min_since_last_zero_witness :
  MinTime (fst (run "127.0.0.1" 22
                  [connects_in 3; connects_in 0; refused; connects_in 9;
                   connects_in 7] new_stats)) = 7.
Proof.
  rewrite (min_since_last_zero "127.0.0.1" 22).
  - reflexivity.
  - intros io Hin _.
    repeat (destruct Hin as [<-|Hin]; [vm_compute; discriminate|]).
    contradiction.
Defined.

Lemma min_is_least_positive_duration_witness :
  MinTime (fst (run "127.0.0.1" 22
                  [connects_in 9; no_lookup; connects_in 4] new_stats))
  <= io_elapsed (connects_in 4).
Proof.
  refine (proj1 (min_is_least_positive_duration "127.0.0.1" 22
                   [connects_in 9; no_lookup; connects_in 4] _)
            (connects_in 4) _ eq_refl).
  - intros io Hin Hs.
    repeat (destruct Hin as [<-|Hin];
            [first [reflexivity | discriminate Hs]|]).
    contradiction.
  - right. right. left. reflexivity.
Defined.

Lemma average_between_extrema_witness :
  let stats :=
    fst (run "127.0.0.1" 22 [connects_in 9; no_lookup; connects_in 4]
           new_stats) in
  MinTime stats * Connected stats <= TotalTime stats
    <= MaxTime stats * Connected stats.
Proof.
  apply (average_between_extrema "127.0.0.1" 22
           [connects_in 9; no_lookup; connects_in 4]).
  - intros io Hin Hs.
    repeat (destruct Hin as [<-|Hin];
            [first [reflexivity | discriminate Hs]|]).
    contradiction.
  - vm_compute. discriminate.
  - reflexivity.
Defined.

End Latency.

(** ** strconv.Atoi *)

Module AtoiFacts.

Import Strconv.
Local Open Scope char_scope.
Local Open Scope list_scope.
Local Open Scope Z_scope.

Lemma digit_code (c : ascii) :
  Numeral.digit c <-> 48 <= Netip.code c <= 57.
Proof.
  unfold Numeral.digit.
  destruct c as [[] [] [] [] [] [] [] []]; cbn; split; intros H;
    try lia; try tauto;
    repeat (destruct H as [H|H]; [discriminate H|]); contradiction.
Qed.

Lemma digit_not_sign (c : ascii) : Numeral.digit c -> is_sign c = false.
Proof.
  intros H. apply digit_code in H.
  destruct c as [[] [] [] [] [] [] [] []]; cbn in H; try lia; reflexivity.
Qed.

(** The byte arithmetic of the fast path tells the digits apart. *)
Lemma fast_step (c : ascii) :
  ((Netip.code c - 48) mod 256 >? 9)
  = negb ((48 <=? Netip.code c) && (Netip.code c <=? 57)) /\
  ((48 <=? Netip.code c) && (Netip.code c <=? 57) = true ->
   (Netip.code c - 48) mod 256 = Netip.code c - 48).
Proof.
  destruct c as [[] [] [] [] [] [] [] []]; vm_compute; split;
    solve [reflexivity | discriminate].
Qed.

Lemma fast_digits_decimal (s : list ascii) (n : Z) :
  fast_digits s n = Numeral.decimal_value s n.
Proof.
  revert n. induction s as [|c s IH]; intros n;
    cbn [fast_digits Numeral.decimal_value].
  - reflexivity.
  - destruct (fast_step c) as [-> H].
    destruct ((48 <=? Netip.code c) && (Netip.code c <=? 57)); cbn [negb].
    + rewrite H by reflexivity. apply IH.
    + reflexivity.
Qed.

Lemma decimal_value_some (s : list ascii) :
  forall n v,
  Numeral.decimal_value s n = Some v <->
  Forall Numeral.digit s /\
  v = fold_left (fun n c => n * 10 + (Netip.code c - 48)) s n.
Proof.
  induction s as [|c s IH]; intros n v; cbn [Numeral.decimal_value fold_left].
  - split.
    + intros H. injection H as <-. split; [constructor|reflexivity].
    + intros [_ ->]. reflexivity.
  - destruct ((48 <=? Netip.code c) && (Netip.code c <=? 57)) eqn:Hc.
    + rewrite IH. assert (Numeral.digit c) by (apply digit_code; lia).
      split; intros [HF Hv]; (split; [|exact Hv]).
      * constructor; assumption.
      * inversion HF; assumption.
    + split; [discriminate|]. intros [HF _]. inversion HF as [|? ? Hd _].
      apply digit_code in Hd. lia.
Qed.

Lemma value_nonneg (ds : list ascii) :
  Forall Numeral.digit ds -> 0 <= Numeral.value ds.
Proof.
  unfold Numeral.value.
  assert (H : forall n, 0 <= n -> Forall Numeral.digit ds ->
            0 <= fold_left (fun n c => n * 10 + (Netip.code c - 48)) ds n).
  { induction ds as [|c ds IH]; intros n Hn HF; cbn [fold_left].
    - exact Hn.
    - inversion HF as [|? ? Hc HF']; subst. apply digit_code in Hc.
      apply IH; [lia|exact HF']. }
  apply H. lia.
Qed.

Lemma fold_ge (ds : list ascii) :
  forall n, 0 <= n -> Forall Numeral.digit ds ->
  n <= fold_left (fun n c => n * 10 + (Netip.code c - 48)) ds n.
Proof.
  induction ds as [|c ds IH]; intros n Hn HF; cbn [fold_left]; [lia|].
  inversion HF as [|? ? Hc HF']; subst. apply digit_code in Hc.
  specialize (IH (n * 10 + (Netip.code c - 48)) ltac:(lia) HF'). lia.
Qed.

(** [ParseUint] returns a number without error exactly for the strings of
    digits whose value fits [uint64]. *)
Lemma ParseUint_digits_ok (s : list ascii) :
  forall n v, 0 <= n <= maxVal ->
  (ParseUint_digits s n = (v, None) <->
   Forall Numeral.digit s /\
   v = fold_left (fun n c => n * 10 + (Netip.code c - 48)) s n /\
   v <= maxVal).
Proof.
  induction s as [|c s IH]; intros n v Hn; cbn [ParseUint_digits fold_left].
  - split.
    + intros H. injection H as <-. split; [constructor|]. split; [auto|lia].
    + intros (_ & -> & _). reflexivity.
  - destruct ((48 <=? Netip.code c) && (Netip.code c <=? 57)) eqn:Hc.
    + assert (Hd : Numeral.digit c) by (apply digit_code; lia).
      assert (Hr : 48 <= Netip.code c <= 57) by lia.
      assert (Hover : forall v',
                maxVal < n * 10 + (Netip.code c - 48) ->
                ~ (Forall Numeral.digit (c :: s) /\
                   v' = fold_left
                          (fun n c => n * 10 + (Netip.code c - 48)) s
                          (n * 10 + (Netip.code c - 48)) /\
                   v' <= maxVal)).
      { intros v' Hlt (HF & -> & Hle). inversion HF as [|? ? _ HF']; subst.
        pose proof (fold_ge s (n * 10 + (Netip.code c - 48)) ltac:(lia) HF').
        lia. }
      cbv zeta. unfold cutoff, maxVal in *.
      change (2 ^ 64) with 18446744073709551616 in *.
      change ((18446744073709551616 - 1) / 10 + 1)
        with 1844674407370955162 in *.
      destruct (Z.geb_spec n 1844674407370955162) as [Hcut|Hcut].
      * split; [discriminate|]. intros H. exfalso.
        apply (Hover v); [lia|exact H].
      * rewrite (Z.mod_small (n * 10)) by lia.
        destruct (Z_lt_le_dec (n * 10 + (Netip.code c - 48))
                    18446744073709551616) as [Hfit|Hwrap].
        -- rewrite Z.mod_small by lia.
           destruct (Z.ltb_spec (n * 10 + (Netip.code c - 48)) (n * 10));
             [lia|].
           destruct (Z.gtb_spec (n * 10 + (Netip.code c - 48))
                       (18446744073709551616 - 1)); [lia|].
           cbn [orb]. rewrite IH by lia. split.
           ++ intros (HF & Hv & Hle). split; [constructor; assumption|auto].
           ++ intros (HF & Hv & Hle). inversion HF; subst. auto.
        -- assert (E : (n * 10 + (Netip.code c - 48))
                         mod 18446744073709551616
                       = n * 10 + (Netip.code c - 48)
                         - 18446744073709551616).
           { symmetry. apply (Z.mod_unique _ _ 1); lia. }
           rewrite E.
           destruct (Z.ltb_spec
                       (n * 10 + (Netip.code c - 48) - 18446744073709551616)
                       (n * 10)) as [Hlow|Hlow]; [|lia].
           cbn [orb]. split; [discriminate|]. intros Hok. exfalso.
           apply (Hover v); [lia|exact Hok].
    + split; [discriminate|]. intros (HF & _).
      inversion HF as [|? ? Hd _]; subst. apply digit_code in Hd. lia.
Qed.

Lemma ParseUint_digits_range (s : list ascii) :
  forall n v, ParseUint_digits s n = (v, Some ErrRange) -> v = maxVal.
Proof.
  induction s as [|c s IH]; intros n v; cbn [ParseUint_digits];
    [discriminate|].
  destruct ((48 <=? Netip.code c) && (Netip.code c <=? 57));
    [|discriminate].
  cbv zeta. destruct (n >=? cutoff); [intros H; injection H; auto|].
  match goal with
  | |- context [if ?b then _ else _] => destruct b
  end; [intros H; injection H; auto|apply IH].
Qed.

Lemma ParseUint_ok (s : list ascii) (v : Z) :
  ParseUint s = (v, None) <->
  s <> [] /\ Forall Numeral.digit s /\ v = Numeral.value s /\ v <= maxVal.
Proof.
  unfold ParseUint, Numeral.value. destruct s as [|c s].
  - split; [discriminate|]. intros [H _]. contradiction.
  - rewrite ParseUint_digits_ok by (unfold maxVal; lia). split.
    + intros H. split; [discriminate|exact H].
    + intros [_ H]. exact H.
Qed.

Lemma ParseUint_range (s : list ascii) (v : Z) :
  ParseUint s = (v, Some ErrRange) -> v = maxVal.
Proof.
  unfold ParseUint. destruct s as [|c s]; [discriminate|].
  apply ParseUint_digits_range.
Qed.

Lemma sign_cases (c : ascii) :
  (c = "-" /\ is_sign c = true /\ Ascii.eqb c "-" = true) \/
  (c = "+" /\ is_sign c = true /\ Ascii.eqb c "-" = false) \/
  (is_sign c = false /\ Ascii.eqb c "-" = false).
Proof.
  unfold is_sign. destruct (Ascii.eqb_spec c "-") as [->|Hm].
  - left. auto.
  - destruct (Ascii.eqb_spec c "+") as [->|Hp]; [right; left|right; right];
      auto.
Qed.

Lemma maxVal_gt : (maxVal >? 2 ^ 63) = true.
Proof. reflexivity. Qed.

Lemma maxVal_ge : (maxVal >=? 2 ^ 63) = true.
Proof. reflexivity. Qed.

(** [ParseInt] returns a number without error exactly for the numerals
    that fit [int64]. *)
Lemma ParseInt_iff (s : list ascii) (n : Z) :
  ParseInt s = (n, None) <-> Numeral.numeral s n /\ Int64.in_range n.
Proof.
  unfold Int64.in_range, Int64.min_int, Int64.max_int. split.
  - unfold ParseInt. destruct s as [|c rest]; [discriminate|]. cbv zeta.
    destruct (sign_cases c) as [(-> & -> & ->)|[(-> & -> & ->)|[-> ->]]];
      cbn [negb andb].
    + destruct (ParseUint rest) as [un [[|]|]] eqn:Hu; [discriminate| |].
      * apply ParseUint_range in Hu. subst un.
        rewrite ?maxVal_gt, ?maxVal_ge. discriminate.
      * apply ParseUint_ok in Hu. destruct Hu as (Hne & HF & -> & Hle).
        destruct (Z.gtb_spec (Numeral.value rest) (2 ^ 63))
          as [Hcmp|Hcmp]; [discriminate|].
        intros Heq. injection Heq as <-. pose proof (value_nonneg rest HF).
        split; [constructor; assumption|lia].
    + destruct (ParseUint rest) as [un [[|]|]] eqn:Hu; [discriminate| |].
      * apply ParseUint_range in Hu. subst un.
        rewrite ?maxVal_gt, ?maxVal_ge. discriminate.
      * apply ParseUint_ok in Hu. destruct Hu as (Hne & HF & -> & Hle).
        destruct (Z.geb_spec (Numeral.value rest) (2 ^ 63))
          as [Hcmp|Hcmp]; [discriminate|].
        intros Heq. injection Heq as <-. pose proof (value_nonneg rest HF).
        split; [constructor; assumption|lia].
    + destruct (ParseUint (c :: rest)) as [un [[|]|]] eqn:Hu;
        [discriminate| |].
      * apply ParseUint_range in Hu. subst un.
        rewrite ?maxVal_gt, ?maxVal_ge. discriminate.
      * apply ParseUint_ok in Hu. destruct Hu as (Hne & HF & -> & Hle).
        destruct (Z.geb_spec (Numeral.value (c :: rest)) (2 ^ 63))
          as [Hcmp|Hcmp]; [discriminate|].
        intros Heq. injection Heq as <-.
        pose proof (value_nonneg (c :: rest) HF).
        split; [constructor; assumption|lia].
  - intros [H Hr].
    assert (Hu : forall ds, ds <> [] -> Forall Numeral.digit ds ->
              Numeral.value ds <= 2 ^ 63 ->
              ParseUint ds = (Numeral.value ds, None)).
    { intros ds Hne HF Hle. apply ParseUint_ok. unfold maxVal.
      repeat split; auto. lia. }
    destruct H as [ds Hne HF | ds Hne HF | ds Hne HF];
      pose proof (value_nonneg ds HF) as Hv.
    + destruct ds as [|c ds]; [contradiction|]. unfold ParseInt. cbv zeta.
      inversion HF as [|? ? Hc _]; subst.
      pose proof (digit_not_sign c Hc) as Hs. rewrite Hs.
      assert (Hm : Ascii.eqb c "-" = false).
      { unfold is_sign in Hs. apply orb_false_iff in Hs. tauto. }
      rewrite Hm, (Hu (c :: ds) Hne HF) by lia. cbn [negb andb].
      destruct (Z.geb_spec (Numeral.value (c :: ds)) (2 ^ 63)); [lia|].
      reflexivity.
    + unfold ParseInt. cbv zeta. change (is_sign "+") with true.
      change (Ascii.eqb "+" "-") with false. cbv iota.
      rewrite (Hu ds Hne HF) by lia. cbn [negb andb].
      destruct (Z.geb_spec (Numeral.value ds) (2 ^ 63)); [lia|].
      reflexivity.
    + unfold ParseInt. cbv zeta. change (is_sign "-") with true.
      change (Ascii.eqb "-" "-") with true. cbv iota.
      rewrite (Hu ds Hne HF) by lia. cbn [negb andb].
      destruct (Z.gtb_spec (Numeral.value ds) (2 ^ 63)); [lia|].
      reflexivity.
Qed.

(** The range error comes at the digit that overflows, before a later
    byte that is no digit is seen. *)
Example Atoi_range_before_syntax :
  Atoi "99999999999999999999x" = (2 ^ 63 - 1, Some ErrRange) /\
  Atoi "-99999999999999999999x" = (- 2 ^ 63, Some ErrRange) /\
  Atoi "9999999999999999999x" = (0, Some ErrSyntax) /\
  Atoi "9223372036854775808" = (2 ^ 63 - 1, Some ErrRange) /\
  Atoi "-9223372036854775808" = (- 2 ^ 63, None).
Proof. vm_compute. repeat split. Qed.

(** What [Atoi] returns without error is written by its argument. *)
Lemma Atoi_numeral (s : string) (n : Z) :
  Atoi s = (n, None) -> Numeral.numeral (list_ascii_of_string s) n.
Proof.
  unfold Atoi. set (s0 := list_ascii_of_string s). clearbody s0.
  assert (Hplain : forall l v, Numeral.decimal_value l 0 = Some v ->
            Forall Numeral.digit l /\ v = Numeral.value l).
  { intros l v H. apply decimal_value_some in H. exact H. }
  destruct ((0 <? Z.of_nat (List.length s0))
            && (Z.of_nat (List.length s0) <? 19)).
  - destruct s0 as [|c rest]; [discriminate|]. cbn [is_minus].
    destruct (is_sign c) eqn:Hs.
    + destruct rest as [|c1 rest1]; [discriminate|].
      rewrite fast_digits_decimal.
      destruct (Numeral.decimal_value (c1 :: rest1) 0) as [v|] eqn:Hv;
        [|discriminate].
      destruct (Hplain _ _ Hv) as [HF ->].
      unfold is_sign in Hs. apply orb_true_iff in Hs.
      destruct (Ascii.eqb_spec c "-") as [->|Hm].
      * intros H. injection H as <-. constructor; [discriminate|exact HF].
      * destruct Hs as [Hs|Hs]; [discriminate|].
        apply Ascii.eqb_eq in Hs. subst c.
        intros H. injection H as <-. constructor; [discriminate|exact HF].
    + rewrite fast_digits_decimal.
      destruct (Numeral.decimal_value (c :: rest) 0) as [v|] eqn:Hv;
        [|discriminate].
      destruct (Hplain _ _ Hv) as [HF ->].
      assert (Hm : Ascii.eqb c "-" = false).
      { unfold is_sign in Hs. apply orb_false_iff in Hs. tauto. }
      rewrite Hm. intros H. injection H as <-.
      constructor; [discriminate|exact HF].
  - intros H. apply ParseInt_iff in H. tauto.
Qed.

(** [Atoi] reads every numeral that fits [int64]. *)
Lemma numeral_Atoi (s : string) (n : Z) :
  Numeral.numeral (list_ascii_of_string s) n -> Int64.in_range n ->
  Atoi s = (n, None).
Proof.
  unfold Atoi. set (s0 := list_ascii_of_string s). clearbody s0.
  intros H Hr. unfold Int64.in_range, Int64.min_int, Int64.max_int in Hr.
  assert (Hdec : forall l, Forall Numeral.digit l ->
            Numeral.decimal_value l 0 = Some (Numeral.value l)).
  { intros l HF. apply decimal_value_some. split; [exact HF|reflexivity]. }
  destruct ((0 <? Z.of_nat (List.length s0))
            && (Z.of_nat (List.length s0) <? 19)).
  - destruct H as [ds Hne HF | ds Hne HF | ds Hne HF].
    + destruct ds as [|c ds]; [contradiction|]. cbn [is_minus].
      inversion HF as [|? ? Hc _]; subst.
      rewrite (digit_not_sign c Hc), fast_digits_decimal, (Hdec _ HF).
      assert (Hm : Ascii.eqb c "-" = false).
      { pose proof (digit_not_sign c Hc) as Hs. unfold is_sign in Hs.
        apply orb_false_iff in Hs. tauto. }
      rewrite Hm. reflexivity.
    + change (is_sign "+") with true. cbv iota. cbn [is_minus].
      destruct ds as [|c ds]; [contradiction|].
      rewrite fast_digits_decimal, (Hdec _ HF). reflexivity.
    + change (is_sign "-") with true. cbv iota. cbn [is_minus].
      destruct ds as [|c ds]; [contradiction|].
      rewrite fast_digits_decimal, (Hdec _ HF). reflexivity.
  - apply ParseInt_iff. split; assumption.
Qed.

End AtoiFacts.

(** ** The log of a run *)

Module LogFacts.

Section Run.

Variable host : string.
Variable port : Z.

Lemma ping_one_line (io : probe_io) (stats : ConnectionStats) :
  exists e,
    snd (ping host port io stats) = [e] /\
    is_connected_line e = probe_succeeds host port io.
Proof.
  unfold ping, probe_succeeds.
  destruct (getIPInfo (io_get io) host) as [info|err].
  - destruct (io_dial io host port); eexists; split; reflexivity.
  - eexists; split; reflexivity.
Qed.

Lemma run_log_cons (io : probe_io) (ios : list probe_io)
    (stats : ConnectionStats) :
  snd (run host port (io :: ios) stats)
  = (snd (ping host port io stats)
     ++ snd (run host port ios (fst (ping host port io stats))))%list.
Proof.
  cbn [run]. destruct (ping host port io stats) as [s1 o1]. cbn [fst snd].
  destruct (run host port ios s1). reflexivity.
Qed.

Lemma run_lines (ios : list probe_io) :
  forall stats,
  List.length (snd (run host port ios stats)) = List.length ios /\
  List.length (filter is_connected_line (snd (run host port ios stats)))
  = List.length (filter (probe_succeeds host port) ios).
Proof.
  induction ios as [|io ios IH]; intros stats.
  - split; reflexivity.
  - rewrite run_log_cons.
    destruct (ping_one_line io stats) as (e & -> & He).
    destruct (IH (fst (ping host port io stats))) as [IH1 IH2].
    cbn [app List.length filter]. rewrite He.
    destruct (probe_succeeds host port io); cbn [List.length]; lia.
Qed.

(** Every probe logs one line, and the counters of the record are the
    numbers of lines of each kind: [Connected] counts the lines that
    report a connection, [Failed] the others. *)
Theorem counters_count_lines (ios : list probe_io) :
  Z.of_nat (List.length ios) <= Int64.max_int ->
  let stats := fst (run host port ios new_stats) in
  let out := snd (run host port ios new_stats) in
  List.length out = List.length ios /\
  Connected stats
  = Z.of_nat (List.length (filter is_connected_line out)) /\
  Failed stats
  = Z.of_nat
      (List.length (filter (fun e => negb (is_connected_line e)) out)).
Proof.
  intros Hlen. cbv zeta.
  destruct (run_lines ios new_stats) as [H1 H2].
  destruct (Aggregator.run_counters host port ios new_stats
              Aggregator.new_stats_in_range) as (HF & HC & _).
  pose proof (Aggregator.successes_failures_length host port ios) as Hsum.
  pose proof (Aggregator.successes_nonneg host port ios) as Hs.
  pose proof (Aggregator.failures_nonneg host port ios) as Hf.
  cbn [new_stats Failed Connected] in HF, HC.
  rewrite Int64Facts.wrap_id in HF, HC by int64_range.
  split; [exact H1|]. split.
  - rewrite HC, H2. reflexivity.
  - rewrite HF.
    pose proof (filter_length is_connected_line
                  (snd (run host port ios new_stats))) as Hfl.
    unfold successes in *. lia.
Qed.

End Run.

Lemma counters_count_lines_witness :
  let ios := [connects_in 1500000; refused; no_lookup] in
  let out := snd (run "192.0.2.1" 80 ios new_stats) in
  Connected (fst (run "192.0.2.1" 80 ios new_stats))
  = Z.of_nat (List.length (filter is_connected_line out)).
Proof.
  cbv zeta.
  destruct (counters_count_lines "192.0.2.1" 80
              [connects_in 1500000; refused; no_lookup]) as (_ & H & _).
  - vm_compute. discriminate.
  - exact H.
Defined.

End LogFacts.

(** ** Order of the probes *)

Module Order.

Lemma Permutation_filter_keeps {A : Type} (f : A -> bool) (l l' : list A) :
  Permutation l l' -> Permutation (filter f l) (filter f l').
Proof.
  induction 1 as [|x l l' _ IH|x y l|l l' l'' _ IH1 _ IH2]; cbn [filter].
  - constructor.
  - destruct (f x); [constructor|]; exact IH.
  - destruct (f x), (f y); try apply Permutation_refl. apply perm_swap.
  - exact (Permutation_trans IH1 IH2).
Qed.

Lemma Permutation_sum (l l' : list Z) :
  Permutation l l' -> fold_right Z.add 0 l = fold_right Z.add 0 l'.
Proof.
  induction 1 as [|x l l' _ IH|x y l|l l' l'' _ IH1 _ IH2];
    cbn [fold_right]; lia.
Qed.

Lemma Permutation_maximum0 (l l' : list Z) :
  Permutation l l' -> maximum0 l = maximum0 l'.
Proof.
  intros HP. unfold maximum0.
  destruct (Latency.fold_left_max_spec l 0) as (A1 & A2 & A3).
  destruct (Latency.fold_left_max_spec l' 0) as (B1 & B2 & B3).
  assert (fold_left Z.max l 0 <= fold_left Z.max l' 0).
  { destruct A3 as [->|A3]; [exact B1|].
    apply B2. exact (Permutation_in _ HP A3). }
  assert (fold_left Z.max l' 0 <= fold_left Z.max l 0).
  { destruct B3 as [->|B3]; [exact A1|].
    apply A2. exact (Permutation_in _ (Permutation_sym HP) B3). }
  lia.
Qed.

(** The probes take the lock in an order that the program does not
    choose.  Whatever the order, the record ends with the same counters,
    the same total and the same maximum. *)
Theorem order_of_probes (host : string) (port : Z)
    (ios ios' : list probe_io) :
  Permutation ios ios' ->
  let stats := fst (run host port ios new_stats) in
  let stats' := fst (run host port ios' new_stats) in
  Attempted stats = Attempted stats' /\
  Connected stats = Connected stats' /\
  Failed stats = Failed stats' /\
  MaxTime stats = MaxTime stats' /\
  TotalTime stats = TotalTime stats'.
Proof.
  intros HP. cbv zeta.
  assert (Hd : Permutation (durations host port ios)
                           (durations host port ios')).
  { unfold durations. apply Permutation_map, Permutation_filter_keeps, HP. }
  assert (Hs : successes host port ios = successes host port ios').
  { unfold successes. f_equal.
    apply Permutation_length, Permutation_filter_keeps, HP. }
  assert (Hf : failures host port ios = failures host port ios').
  { unfold failures. f_equal.
    apply Permutation_length, Permutation_filter_keeps, HP. }
  destruct (Aggregator.run_counters host port ios new_stats
              Aggregator.new_stats_in_range) as (-> & -> & ->).
  destruct (Aggregator.run_counters host port ios' new_stats
              Aggregator.new_stats_in_range) as (-> & -> & ->).
  rewrite Hs, Hf. repeat (split; [reflexivity|]).
  destruct (Latency.run_successes host port ios new_stats)
    as (_ & _ & _ & -> & ->).
  destruct (Latency.run_successes host port ios' new_stats)
    as (_ & _ & _ & -> & ->).
  split.
  - rewrite !Latency.fold_max. apply (Permutation_maximum0 _ _ Hd).
  - rewrite <- (Int64Facts.wrap_id _
                  (Latency.fold_total_in_range (durations host port ios)
                     new_stats Int64Facts.zero_in_range)).
    rewrite <- (Int64Facts.wrap_id _
                  (Latency.fold_total_in_range (durations host port ios')
                     new_stats Int64Facts.zero_in_range)).
    rewrite !Latency.fold_total, (Permutation_sum _ _ Hd). reflexivity.
Qed.

Lemma order_of_probes_witness :
  fst (run "192.0.2.1" 80 [connects_in 5; refused; connects_in 0] new_stats)
  = mkStats 2 2 1 0 5 5 /\
  MaxTime (fst (run "192.0.2.1" 80 [refused; connects_in 0; connects_in 5]
                  new_stats)) = 5.
Proof.
  split; [reflexivity|].
  destruct (order_of_probes "192.0.2.1" 80
              [connects_in 5; refused; connects_in 0]
              [refused; connects_in 0; connects_in 5]) as (_ & _ & _ & H & _).
  - apply Permutation_cons_append with (l := [refused; connects_in 0]).
  - rewrite <- H. reflexivity.
Defined.

(** [MinTime] does depend on the order. *)
Lemma min_depends_on_order (host : string) (port : Z) (d : Z) :
  0 < d ->
  MinTime (fst (run host port [connects_in 0; connects_in d] new_stats)) = d /\
  MinTime (fst (run host port [connects_in d; connects_in 0] new_stats)) = 0.
Proof.
  intros Hd. cbn. unfold record_success. cbn.
  destruct (Z.ltb_spec 0 d); [|lia]. cbn.
  destruct (Z.eqb_spec d 0); [lia|]. cbn. auto.
Qed.

End Order.

(** ** Times of the log *)

Module ReportFacts.




End ReportFacts.

(** ** main *)

Module Program.

Local Open Scope list_scope.

Lemma fold_bound (ds : list ascii) :
  forall n, 0 <= n -> Forall Numeral.digit ds ->
  fold_left (fun n c => n * 10 + (Netip.code c - 48)) ds n
  < (n + 1) * 10 ^ Z.of_nat (List.length ds).
Proof.
  induction ds as [|c ds IH]; intros n Hn HF; cbn [fold_left List.length].
  - cbn. lia.
  - inversion HF as [|? ? Hc HF']; subst. apply AtoiFacts.digit_code in Hc.
    specialize (IH (n * 10 + (Netip.code c - 48)) ltac:(lia) HF').
    rewrite Nat2Z.inj_succ, Z.pow_succ_r by lia.
    assert (0 < 10 ^ Z.of_nat (List.length ds))
      by (apply Z.pow_pos_nonneg; lia).
    nia.
Qed.

Lemma value_bound (ds : list ascii) :
  Forall Numeral.digit ds -> (List.length ds <= 18)%nat ->
  0 <= Numeral.value ds < 10 ^ 18.
Proof.
  intros HF Hl. split; [apply AtoiFacts.value_nonneg, HF|].
  pose proof (fold_bound ds 0 ltac:(lia) HF) as H. fold (Numeral.value ds) in H.
  assert (10 ^ Z.of_nat (List.length ds) <= 10 ^ 18)
    by (apply Z.pow_le_mono_r; lia).
  lia.
Qed.

(** [Atoi] returns a number without error exactly for the numerals that
    fit [int64]. *)
Lemma Atoi_iff (s : string) (n : Z) :
  Strconv.Atoi s = (n, None) <->
  Numeral.numeral (list_ascii_of_string s) n /\ Int64.in_range n.
Proof.
  split; [|intros [H Hr]; apply AtoiFacts.numeral_Atoi; assumption].
  intros H. split; [apply AtoiFacts.Atoi_numeral, H|].
  pose proof (AtoiFacts.Atoi_numeral s n H) as Hn.
  unfold Strconv.Atoi in H. revert H Hn.
  set (s0 := list_ascii_of_string s). clearbody s0.
  destruct (Z.ltb_spec 0 (Z.of_nat (List.length s0))) as [H0|H0];
    destruct (Z.ltb_spec (Z.of_nat (List.length s0)) 19) as [H19|H19];
    cbn [andb].
  - intros _ Hn.
    assert (Hv : forall ds, Forall Numeral.digit ds ->
              (List.length ds <= List.length s0)%nat ->
              0 <= Numeral.value ds < 10 ^ 18)
      by (intros ds HF Hl; apply value_bound; [exact HF|lia]).
    change (10 ^ 18) with 1000000000000000000 in Hv.
    destruct Hn as [ds _ HF | ds _ HF | ds _ HF];
      [specialize (Hv ds HF ltac:(lia))
      |specialize (Hv ds HF ltac:(cbn [List.length]; lia))
      |specialize (Hv ds HF ltac:(cbn [List.length]; lia))];
      int64_range.
  - intros H _. apply AtoiFacts.ParseInt_iff in H. tauto.
  - intros _ Hn. exfalso.
    destruct Hn as [ds Hne _ | ds _ _ | ds _ _];
      [destruct ds; [contradiction|]| |]; cbn [List.length] in H0; lia.
  - intros _ Hn. exfalso.
    destruct Hn as [ds Hne _ | ds _ _ | ds _ _];
      [destruct ds; [contradiction|]| |]; cbn [List.length] in H0; lia.
Qed.

Lemma valid_port_range (n : Z) :
  isValidPort n = true <-> 0 <= n <= 65535.
Proof.
  unfold isValidPort. rewrite andb_true_iff, Z.geb_le, Z.leb_le. tauto.
Qed.

(** The port that [main] accepts. *)
Lemma port_accepted (p : string) (port : Z) :
  (Strconv.Atoi p = (port, None) /\ isValidPort port = true) <->
  (Numeral.numeral (list_ascii_of_string p) port /\ 0 <= port <= 65535).
Proof.
  rewrite Atoi_iff.
  rewrite valid_port_range. split.
  - tauto.
  - intros [Hn Hp]. split; [|exact Hp]. split; [exact Hn|int64_range].
Qed.

Lemma check_args_three (prog host p : string) :
  check_args [prog; host; p]
  = if negb (isValidIP host) then Fatal (FatalInvalidIP host)
    else
      let '(port, err) := Strconv.Atoi p in
      if match err with Some _ => true | None => false end
         || negb (isValidPort port)
      then Fatal (FatalInvalidPort err)
      else Start host port.
Proof. reflexivity. Qed.

Lemma check_args_usage (Args : list string) :
  List.length Args <> 3%nat -> check_args Args = Fatal FatalUsage.
Proof.
  intros H. unfold check_args.
  destruct (Nat.eqb_spec (List.length Args) 3); [contradiction|reflexivity].
Qed.

Lemma length_three (Args : list string) :
  List.length Args = 3%nat -> exists a b c, Args = [a; b; c].
Proof.
  destruct Args as [|a [|b [|c [|d r]]]]; try discriminate. eauto.
Qed.

Lemma check_args_start (Args : list string) (host : string) (port : Z) :
  check_args Args = Start host port <-> valid_invocation Args host port.
Proof.
  unfold valid_invocation. split.
  - intros H.
    destruct (Nat.eq_dec (List.length Args) 3) as [E|E];
      [|rewrite (check_args_usage Args E) in H; discriminate].
    destruct (length_three Args E) as (prog & h & p & ->).
    rewrite check_args_three in H.
    destruct (isValidIP h) eqn:Hh; [|discriminate]. cbn [negb] in H.
    destruct (Strconv.Atoi p) as [n [e|]] eqn:Ha; [discriminate|].
    cbn [orb] in H.
    destruct (isValidPort n) eqn:Hp; [|discriminate].
    injection H as <- <-. exists prog, p.
    split; [reflexivity|]. split; [exact Hh|].
    apply port_accepted. auto.
  - intros (prog & p & -> & Hh & Hn).
    apply port_accepted in Hn. destruct Hn as [Ha Hp].
    rewrite check_args_three, Hh, Ha, Hp. reflexivity.
Qed.

(** [main] goes on to probe exactly when it is given two arguments, an IP
    address that [isValidIP] accepts and a decimal numeral, possibly
    signed, of a number from 0 to 65535; it then probes that address and
    that port. *)
Theorem main_starts_iff_valid_invocation (Args : list string)
    (host : string) (port : Z) :
  check_args Args = Start host port <->
  exists prog p,
    Args = [prog; host; p] /\ isValidIP host = true /\
    Numeral.numeral (list_ascii_of_string p) port /\ 0 <= port <= 65535.
Proof. exact (check_args_start Args host port). Qed.

(** The errors are reported in the order of the tests: a wrong number of
    arguments first; with three arguments an address that is not valid,
    whatever the port is; then the port.  The line about the port carries
    the error of [Atoi], which is nil when the port is a numeral out of
    0..65535. *)
Theorem fatal_error_reported (Args : list string) :
  (check_args Args = Fatal FatalUsage <-> List.length Args <> 3%nat) /\
  (forall prog host p,
     Args = [prog; host; p] -> isValidIP host = false ->
     check_args Args = Fatal (FatalInvalidIP host)) /\
  (forall prog host p,
     Args = [prog; host; p] -> isValidIP host = true ->
     (check_args Args = Fatal (FatalInvalidPort None) <->
      exists n, Numeral.numeral (list_ascii_of_string p) n /\
                Int64.in_range n /\ ~ 0 <= n <= 65535) /\
     (forall e, check_args Args = Fatal (FatalInvalidPort (Some e)) <->
                exists n, Strconv.Atoi p = (n, Some e))).
Proof.
  split; [|split].
  - split; [|apply check_args_usage].
    intros H E. destruct (length_three Args E) as (prog & h & p & ->).
    rewrite check_args_three in H.
    destruct (isValidIP h); [|discriminate]. cbn [negb] in H.
    destruct (Strconv.Atoi p) as [n [e|]]; [discriminate|].
    cbn [orb] in H. destruct (isValidPort n); discriminate.
  - intros prog host p -> Hh. rewrite check_args_three, Hh. reflexivity.
  - intros prog host p -> Hh. rewrite check_args_three, Hh. cbn [negb].
    split.
    + split.
      * destruct (Strconv.Atoi p) as [n [e|]] eqn:Ha; [discriminate|].
        cbn [orb]. destruct (isValidPort n) eqn:Hp; [discriminate|].
        intros _. exists n. apply Atoi_iff in Ha. destruct Ha as [Hn Hr].
        split; [exact Hn|]. split; [exact Hr|].
        intros Hpr. apply valid_port_range in Hpr. congruence.
      * intros (n & Hn & Hr & Hout).
        rewrite (proj2 (Atoi_iff p n) (conj Hn Hr)). cbn [orb].
        destruct (isValidPort n) eqn:Hp; [|reflexivity].
        apply valid_port_range in Hp. contradiction.
    + intros e. destruct (Strconv.Atoi p) as [n [e'|]]; cbn [orb].
      * split; [intros H; injection H as ->; eauto|].
        intros (n' & H'). injection H' as _ ->. reflexivity.
      * split; [|intros (n' & H'); discriminate].
        destruct (isValidPort n); discriminate.
Qed.

Lemma fatal_error_reported_witness :
  check_args ["paping"; "not-an-ip"; "70000"]
  = Fatal (FatalInvalidIP "not-an-ip") /\
  check_args ["paping"; "192.0.2.1"; "70000"] = Fatal (FatalInvalidPort None).
Proof.
  split.
  - destruct (fatal_error_reported ["paping"; "not-an-ip"; "70000"])
      as (_ & H & _).
    apply (H "paping" "not-an-ip" "70000" eq_refl). reflexivity.
  - destruct (fatal_error_reported ["paping"; "192.0.2.1"; "70000"])
      as (_ & _ & H).
    destruct (H "paping" "192.0.2.1" "70000" eq_refl eq_refl) as [H1 _].
    apply H1. exists 70000. split.
    + apply (Numeral.numeral_plain
               (list_ascii_of_string "70000")); [discriminate|].
      repeat (apply Forall_cons; [cbv; tauto|]). apply Forall_nil.
    + split; [vm_compute; split; discriminate|lia].
Defined.

Lemma main_fatal (Args : list string) (f : fatal) (ios : list probe_io) :
  check_args Args = Fatal f -> main Args ios = (1, [FatalLine f]).
Proof. intros H. unfold main. rewrite H. reflexivity. Qed.

Lemma main_start (Args : list string) (host : string) (port : Z)
    (ios : list probe_io) :
  check_args Args = Start host port ->
  main Args ios
  = (0, map Line (snd (run host port ios new_stats)
                  ++ printReport (fst (run host port ios new_stats)))).
Proof.
  intros H. unfold main. rewrite H.
  destruct (run host port ios new_stats). reflexivity.
Qed.

(** The exit status is 0 for a valid invocation and 1 for any other; an
    invocation that is not valid writes one line and makes no probe: what
    the network would answer plays no part. *)
Theorem exit_status (Args : list string) (ios : list probe_io) :
  (fst (main Args ios) = 0 <->
   exists host port, valid_invocation Args host port) /\
  (fst (main Args ios) = 1 <->
   ~ exists host port, valid_invocation Args host port) /\
  (fst (main Args ios) = 1 ->
   exists f, forall ios', main Args ios' = (1, [FatalLine f])).
Proof.
  destruct (check_args Args) as [f|host port] eqn:Hc.
  - assert (Hno : ~ exists host port, valid_invocation Args host port).
    { intros (h & p & Hv). apply check_args_start in Hv. congruence. }
    rewrite (main_fatal Args f ios Hc). cbn [fst].
    split; [split; [discriminate|intros H; contradiction]|].
    split; [tauto|]. intros _. exists f. intros ios'.
    apply main_fatal, Hc.
  - assert (Hyes : exists host port, valid_invocation Args host port).
    { exists host, port. apply check_args_start, Hc. }
    rewrite (main_start Args host port ios Hc). cbn [fst].
    split; [tauto|]. split; [|discriminate].
    split; [discriminate|intros H; contradiction].
Qed.

(** After a valid invocation the output is one line for each probe that
    completed, then the report, whose counts are those of the probes:
    [Attempted] and [Connected] the successes, [Failed] the failures. *)
Theorem output_of_a_run (Args : list string) (host : string) (port : Z)
    (ios : list probe_io) :
  check_args Args = Start host port ->
  Z.of_nat (List.length ios) <= Int64.max_int ->
  let stats := fst (run host port ios new_stats) in
  let out := snd (run host port ios new_stats) in
  let S := successes host port ios in
  let F := failures host port ios in
  List.length out = List.length ios /\
  main Args ios
  = (0, map Line
          (out
           ++ [LogStatisticsTitle; LogCounts S S F (successRate stats);
               LogTimesTitle]
           ++ (if 0 <? S then [times_line stats] else []))).
Proof.
  intros Hc Hlen. cbv zeta.
  destruct (LogFacts.run_lines host port ios new_stats) as [Hl _].
  split; [exact Hl|]. rewrite (main_start _ _ _ _ Hc). do 3 f_equal.
  destruct (Aggregator.run_counters host port ios new_stats
              Aggregator.new_stats_in_range) as (HF & HC & HA).
  pose proof (Aggregator.successes_failures_length host port ios) as Hsum.
  pose proof (Aggregator.successes_nonneg host port ios) as Hs.
  pose proof (Aggregator.failures_nonneg host port ios) as Hf.
  cbn [new_stats Failed Connected Attempted] in HF, HC, HA.
  rewrite Int64Facts.wrap_id in HF, HC, HA by int64_range.
  destruct (Z.ltb_spec 0 (successes host port ios)) as [Hpos|Hzero].
  - rewrite Reporter.printReport_connected by lia.
    rewrite HF, HC, HA. reflexivity.
  - rewrite Reporter.printReport_unconnected by lia.
    rewrite HF, HC, HA. reflexivity.
Qed.

Lemma output_of_a_run_witness :
  main ["paping"; "192.0.2.1"; "9999"] [refused; no_lookup]
  = (0, map Line
          [LogConnectionTimedOut;
           LogLookupFailed (ErrTransport "no route to host");
           LogStatisticsTitle; LogCounts 0 0 2 S754_nan; LogTimesTitle]).
Proof.
  destruct (output_of_a_run ["paping"; "192.0.2.1"; "9999"] "192.0.2.1" 9999
              [refused; no_lookup] eq_refl) as [_ H].
  - vm_compute. discriminate.
  - rewrite H. vm_compute. reflexivity.
Defined.

End Program.

(** ** Valid addresses and ports *)

Module AddressFacts.

Import Netip Reading.
Local Open Scope char_scope.
Local Open Scope list_scope.
Local Open Scope Z_scope.

Lemma pieces_bytes (v4 : bool) (n : nat) (s : list ascii) :
  Literal.pieces v4 n s -> Forall address_byte s.
Proof.
  assert (Hh : forall g, Literal.h16 g -> Forall address_byte g).
  { intros g Hg. destruct (IPv6Facts.h16_is_hex g Hg) as [_ HF].
    eapply Forall_impl; [|exact HF]. intros c Hc. left. exact Hc. }
  assert (H4 : forall s, Literal.ipv4 s -> Forall address_byte s).
  { intros t Ht. destruct (IPv4Facts.ipv4_shape t Ht) as [_ HF].
    eapply Forall_impl; [|exact HF].
    intros c [Hc| ->]; [left; apply IPv6Facts.is_digit_hex, Hc|right; left].
    reflexivity. }
  intros H. induction H as [g Hg | s Hv Hs | g n s Hg _ IH]; auto.
  apply Forall_app. split; [auto|].
  constructor; [right; right; reflexivity|exact IH].
Qed.

Lemma valid_address_shape (s : string) :
  isValidIP s = true ->
  Forall address_byte (list_ascii_of_string s) /\
  (In "." (list_ascii_of_string s) \/ In ":" (list_ascii_of_string s)).
Proof.
  intros H.
  assert (Hl : Literal.ipv4 (list_ascii_of_string s) \/
               Literal.ipv6 (list_ascii_of_string s)).
  { apply ParseIPFacts.ParseAddr_iff. unfold isValidIP, ParseIP in H.
    destruct (ParseAddr (list_ascii_of_string s)) as [[ip [|c z]]|];
      [eauto|discriminate|discriminate]. }
  assert (Ho : forall v4 n q, Literal.opt_pieces v4 n q ->
                 Forall address_byte q).
  { intros v4 n q [[_ ->]|Hq]; [constructor|exact (pieces_bytes _ _ _ Hq)]. }
  destruct Hl as [H4|[H8|(a & p & b & q & Hp & Hq & _ & E)]].
  - split.
    + destruct (IPv4Facts.ipv4_shape _ H4) as [_ HF].
      eapply Forall_impl; [|exact HF].
      intros c [Hc| ->]; [left; apply IPv6Facts.is_digit_hex, Hc|right; left].
      reflexivity.
    + left. destruct (IPv4Facts.ipv4_shape _ H4) as [(t & r & -> & _) _].
      apply in_or_app. right. left. reflexivity.
  - split; [exact (pieces_bytes _ _ _ H8)|]. right.
    destruct (ParseIPFacts.ipv6_shape _ (or_introl H8)) as (t & r & -> & _).
    apply in_or_app. right. left. reflexivity.
  - rewrite E. split.
    + apply Forall_app. split; [eauto|].
      constructor; [right; right; reflexivity|].
      constructor; [right; right; reflexivity|eauto].
    + right. apply in_or_app. right. left. reflexivity.
Qed.

(** An address that [isValidIP] accepts is made of hexadecimal digits,
    dots and colons, and holds a dot or a colon: no name, no space, no
    bracket, no zone, no prefix length. *)
Theorem valid_address_bytes (s : string) :
  isValidIP s = true ->
  Forall address_byte (list_ascii_of_string s) /\
  (In "." (list_ascii_of_string s) \/ In ":" (list_ascii_of_string s)).
Proof. exact (valid_address_shape s). Qed.

Lemma valid_address_bytes_witness :
  isValidIP "::ffff:192.0.2.1" = true /\
  Forall address_byte (list_ascii_of_string "::ffff:192.0.2.1").
Proof.
  split; [reflexivity|].
  apply (valid_address_bytes "::ffff:192.0.2.1"). reflexivity.
Defined.

End AddressFacts.

Module Ports.

Lemma below_256_In (a : Z) : 0 <= a < 256 -> In a below_256.
Proof.
  intros H. apply in_map_iff. exists (Z.to_nat a). split; [lia|].
  apply in_seq. lia.
Qed.

Lemma ports_round_trip :
  forallb (fun a => forallb (fun b => port_round_trip (256 * a + b))
                      below_256) below_256 = true.
Proof. vm_compute. reflexivity. Qed.

(** Every port from 0 to 65535, written in decimal, is read back by
    [main]: with a valid address it goes on to probe that port. *)
Theorem every_port_is_accepted (prog host : string) (n : Z) :
  isValidIP host = true -> 0 <= n <= 65535 ->
  check_args [prog; host; format_int n] = Start host n.
Proof.
  intros Hh Hn.
  assert (Ha : 0 <= n / 256 < 256).
  { split; [apply Z.div_pos; lia|apply Z.div_lt_upper_bound; lia]. }
  assert (Hb : 0 <= n mod 256 < 256) by (apply Z.mod_pos_bound; lia).
  pose proof ports_round_trip as H. rewrite forallb_forall in H.
  specialize (H _ (below_256_In _ Ha)). rewrite forallb_forall in H.
  specialize (H _ (below_256_In _ Hb)).
  rewrite <- Z.div_mod in H by lia. unfold port_round_trip in H.
  rewrite Program.check_args_three, Hh. cbn [negb].
  destruct (Strconv.Atoi (format_int n)) as [m [e|]]; [discriminate|].
  apply Z.eqb_eq in H. subst m. cbn [orb].
  rewrite (proj2 (Program.valid_port_range n) Hn). reflexivity.
Qed.

Lemma every_port_is_accepted_witness :
  check_args ["paping"; "192.0.2.1"; "443"] = Start "192.0.2.1" 443.
Proof.
  apply (every_port_is_accepted "paping" "192.0.2.1" 443); [reflexivity|lia].
Defined.

End Ports.

(** ** The dial *)

Module DialFacts.

Import Net.
Local Open Scope char_scope.
Local Open Scope list_scope.
Local Open Scope Z_scope.

Lemma IndexByte_absent (s : list ascii) (c : ascii) :
  ~ In c s -> IndexByte s c = -1.
Proof.
  induction s as [|x s IH]; intros H; cbn [IndexByte]; [reflexivity|].
  destruct (Ascii.eqb_spec x c) as [->|_].
  - exfalso. apply H. left. reflexivity.
  - rewrite IH by (intros Hin; apply H; right; exact Hin). reflexivity.
Qed.

Lemma IndexByte_present (s : list ascii) (c : ascii) :
  In c s -> 0 <= IndexByte s c.
Proof.
  induction s as [|x s IH]; intros H; [contradiction|]. cbn [IndexByte].
  destruct (Ascii.eqb_spec x c) as [->|Hne]; [lia|].
  destruct H as [H|H]; [contradiction|]. specialize (IH H).
  destruct (Z.ltb_spec (IndexByte s c) 0); lia.
Qed.

Lemma LastIndexByte_absent (s : list ascii) (c : ascii) :
  ~ In c s -> LastIndexByte s c = -1.
Proof.
  induction s as [|x s IH]; intros H; cbn [LastIndexByte]; [reflexivity|].
  rewrite IH by (intros Hin; apply H; right; exact Hin). cbn.
  destruct (Ascii.eqb_spec x c) as [->|_]; [|reflexivity].
  exfalso. apply H. left. reflexivity.
Qed.

Lemma LastIndexByte_app (a b : list ascii) (c : ascii) :
  ~ In c b -> LastIndexByte (a ++ c :: b) c = Z.of_nat (List.length a).
Proof.
  intros H. induction a as [|x a IH].
  - cbn [app LastIndexByte List.length]. rewrite (LastIndexByte_absent b c H).
    cbn. rewrite Ascii.eqb_refl. reflexivity.
  - cbn [app LastIndexByte List.length]. rewrite IH.
    destruct (Z.leb_spec 0 (Z.of_nat (List.length a))); lia.
Qed.

Lemma slice_prefix (a b : list ascii) :
  slice 0 (Z.of_nat (List.length a)) (a ++ b) = a.
Proof.
  unfold slice. rewrite Z.sub_0_r, Nat2Z.id. cbn [Z.to_nat skipn].
  rewrite firstn_app, Nat.sub_diag, firstn_all. cbn [firstn].
  apply app_nil_r.
Qed.

Lemma from_suffix (a b : list ascii) (c : ascii) :
  from (Z.of_nat (List.length a) + 1) (a ++ c :: b) = b.
Proof.
  unfold from. replace (Z.to_nat (Z.of_nat (List.length a) + 1))
    with (List.length a + 1)%nat by lia.
  rewrite skipn_app, skipn_all2 by lia.
  replace (List.length a + 1 - List.length a)%nat with 1%nat by lia.
  reflexivity.
Qed.

Lemma list_ascii_app (s t : string) :
  list_ascii_of_string (s ++ t)
  = list_ascii_of_string s ++ list_ascii_of_string t.
Proof.
  induction s as [|c s IH]; cbn; [reflexivity|]. rewrite IH. reflexivity.
Qed.

Lemma dial_address_bytes (host : string) (port : Z) :
  list_ascii_of_string (dial_address host port)
  = list_ascii_of_string host
    ++ ":" :: list_ascii_of_string (format_int port).
Proof. unfold dial_address. rewrite list_ascii_app. reflexivity. Qed.

Lemma uint_digits (d : Decimal.uint) :
  Forall Numeral.digit (list_ascii_of_string (NilEmpty.string_of_uint d)).
Proof.
  induction d; cbn [NilEmpty.string_of_uint list_ascii_of_string];
    constructor; try assumption; cbv; tauto.
Qed.

Lemma format_int_bytes (n : Z) :
  Forall number_byte (list_ascii_of_string (format_int n)).
Proof.
  assert (Hu : forall d, Forall number_byte
            (list_ascii_of_string (NilZero.string_of_uint d))).
  { intros d. unfold NilZero.string_of_uint.
    destruct d; try (eapply Forall_impl; [|apply uint_digits];
                     intros c Hc; left; exact Hc).
    constructor; [left; cbv; tauto|constructor]. }
  unfold format_int, NilZero.string_of_int.
  destruct (Z.to_int n) as [d|d]; [apply Hu|].
  cbn [list_ascii_of_string]. constructor; [right; reflexivity|apply Hu].
Qed.

Lemma number_byte_plain (c : ascii) :
  number_byte c -> c <> ":" /\ c <> "[" /\ c <> "]".
Proof.
  intros [H| ->]; [|repeat split; discriminate].
  unfold Numeral.digit in H. cbn in H.
  repeat (destruct H as [<-|H]; [repeat split; discriminate|]).
  contradiction.
Qed.

Lemma address_byte_plain (c : ascii) :
  address_byte c -> c <> "[" /\ c <> "]".
Proof.
  intros [H|[->| ->]]; [|split; discriminate|split; discriminate].
  split; intros ->; discriminate H.
Qed.

Lemma not_In_of_Forall {A : Type} (P : A -> Prop) (l : list A) (x : A) :
  Forall P l -> ~ P x -> ~ In x l.
Proof. intros HF Hx Hin. rewrite Forall_forall in HF. auto. Qed.

Lemma host_not_bracketed (host : list ascii) (rest : list ascii) :
  Forall address_byte host ->
  match host ++ ":" :: rest with
  | c :: _ => Ascii.eqb c "["
  | [] => false
  end = false.
Proof.
  intros HF. destruct host as [|c host]; [reflexivity|].
  inversion HF as [|? ? Hc _]; subst. cbn [app].
  apply address_byte_plain in Hc. apply Ascii.eqb_neq. tauto.
Qed.

Lemma split_dial_address (host : string) (port : Z) :
  Forall address_byte (list_ascii_of_string host) ->
  SplitHostPort (list_ascii_of_string (dial_address host port))
  = if 0 <=? IndexByte (list_ascii_of_string host) ":" then
      inr TooManyColons
    else
      inl (list_ascii_of_string host,
           list_ascii_of_string (format_int port)).
Proof.
  intros HF. rewrite dial_address_bytes.
  set (h := list_ascii_of_string host) in *.
  set (p := list_ascii_of_string (format_int port)).
  assert (Hp : Forall number_byte p) by apply format_int_bytes.
  assert (Hpc : ~ In ":" p).
  { apply (not_In_of_Forall _ _ _ Hp). intros H.
    apply number_byte_plain in H. tauto. }
  unfold SplitHostPort. rewrite (LastIndexByte_app h p ":" Hpc).
  destruct (Z.ltb_spec (Z.of_nat (List.length h)) 0); [lia|].
  rewrite (host_not_bracketed h p HF), slice_prefix.
  destruct (Z.leb_spec 0 (IndexByte h ":")); [reflexivity|].
  unfold from at 1 2. cbn [Z.to_nat skipn].
  assert (Hall : forall c, c = "[" \/ c = "]" -> ~ In c (h ++ ":" :: p)).
  { intros c Hc Hin. apply in_app_or in Hin.
    destruct Hin as [Hin|[<-|Hin]].
    - rewrite Forall_forall in HF. apply HF, address_byte_plain in Hin.
      destruct Hc; tauto.
    - destruct Hc; discriminate.
    - rewrite Forall_forall in Hp. apply Hp, number_byte_plain in Hin.
      destruct Hc; tauto. }
  rewrite (IndexByte_absent _ "[" (Hall _ (or_introl eq_refl))).
  rewrite (IndexByte_absent _ "]" (Hall _ (or_intror eq_refl))).
  cbn [Z.leb Z.compare]. rewrite from_suffix. reflexivity.
Qed.

(** The address that [ping] dials is the host, a colon and the port.
    [SplitHostPort] reads it back for a host without colon, an IPv4
    address; for a valid host that holds a colon, an IPv6 address, it
    refuses it: too many colons. *)
Theorem dial_address_of_valid_host (host : string) (port : Z) :
  isValidIP host = true ->
  (~ In ":" (list_ascii_of_string host) ->
   SplitHostPort (list_ascii_of_string (dial_address host port))
   = inl (list_ascii_of_string host,
          list_ascii_of_string (format_int port))) /\
  (In ":" (list_ascii_of_string host) ->
   SplitHostPort (list_ascii_of_string (dial_address host port))
   = inr TooManyColons).
Proof.
  intros Hv.
  destruct (AddressFacts.valid_address_shape host Hv) as [HF _].
  rewrite (split_dial_address host port HF). split; intros H.
  - rewrite (IndexByte_absent _ _ H). reflexivity.
  - pose proof (IndexByte_present _ _ H).
    destruct (Z.leb_spec 0 (IndexByte (list_ascii_of_string host) ":"));
      [reflexivity|lia].
Qed.

Lemma dial_address_of_valid_host_witness :
  SplitHostPort (list_ascii_of_string (dial_address "192.0.2.1" 443))
  = inl (list_ascii_of_string "192.0.2.1", list_ascii_of_string "443") /\
  SplitHostPort (list_ascii_of_string (dial_address "2001:db8::1" 443))
  = inr TooManyColons.
Proof.
  split.
  - apply (dial_address_of_valid_host "192.0.2.1" 443 eq_refl).
    vm_compute. intuition discriminate.
  - apply (dial_address_of_valid_host "2001:db8::1" 443 eq_refl).
    vm_compute. tauto.
Defined.

Section Run.

Variable host : string.
Variable port : Z.

Lemma run_no_success (ios : list probe_io) :
  (forall io, In io ios -> probe_succeeds host port io = false) ->
  Z.of_nat (List.length ios) <= Int64.max_int ->
  fst (run host port ios new_stats)
  = mkStats 0 0 (Z.of_nat (List.length ios)) 0 0 0.
Proof.
  intros Hall Hlen.
  assert (G : forall l stats,
            Int64.in_range (Failed stats) ->
            (forall io, In io l -> probe_succeeds host port io = false) ->
            fst (run host port l stats)
            = mkStats (Attempted stats) (Connected stats)
                (Int64.wrap (Failed stats + Z.of_nat (List.length l)))
                (MinTime stats) (MaxTime stats) (TotalTime stats)).
  { induction l as [|io l IH]; intros stats Hr H.
    - cbn [run fst List.length Z.of_nat]. rewrite Z.add_0_r.
      rewrite Int64Facts.wrap_id by exact Hr. destruct stats. reflexivity.
    - rewrite Aggregator.run_cons.
      rewrite Aggregator.ping_failure by (apply H; left; reflexivity).
      rewrite IH.
      + cbn [fail_probe Attempted Connected Failed MinTime MaxTime
               TotalTime].
        f_equal. unfold Int64.incr, Int64.add.
        rewrite Int64Facts.wrap_add_l. f_equal. cbn [List.length]. lia.
      + cbn [fail_probe Failed]. unfold Int64.incr, Int64.add.
        apply Int64Facts.wrap_in_range.
      + intros io' Hin. apply H. right. exact Hin. }
  rewrite (G ios new_stats Int64Facts.zero_in_range Hall).
  cbn [new_stats Attempted Connected Failed MinTime MaxTime TotalTime].
  f_equal. apply Int64Facts.wrap_id. cbn [Z.add]. int64_range.
Qed.

(** A probe of an IPv6 address never connects: the address that [ping]
    dials is refused before any connection is tried, so every probe
    fails, [Connected] stays 0 and the report shows no connection time,
    whatever listens on the port. *)
Theorem ipv6_target_never_connects (ios : list probe_io) :
  isValidIP host = true -> In ":" (list_ascii_of_string host) ->
  (forall io, In io ios -> dial_parses_address io) ->
  Z.of_nat (List.length ios) <= Int64.max_int ->
  let stats := fst (run host port ios new_stats) in
  stats = mkStats 0 0 (Z.of_nat (List.length ios)) 0 0 0 /\
  printReport stats
  = [LogStatisticsTitle;
     LogCounts 0 0 (Z.of_nat (List.length ios)) S754_nan; LogTimesTitle].
Proof.
  intros Hv Hc Hd Hlen. cbv zeta.
  assert (Hfail : forall io, In io ios ->
            probe_succeeds host port io = false).
  { intros io Hin. unfold probe_succeeds.
    destruct (getIPInfo (io_get io) host); [|reflexivity].
    destruct (AddressFacts.valid_address_shape host Hv) as [HF _].
    pose proof (split_dial_address host port HF) as Hs.
    pose proof (IndexByte_present _ _ Hc) as Hi.
    destruct (Z.leb_spec 0 (IndexByte (list_ascii_of_string host) ":"));
      [|lia].
    rewrite (Hd io Hin host port _ Hs). reflexivity. }
  rewrite (run_no_success ios Hfail Hlen). split; reflexivity.
Qed.

(** While the lookup fails every probe fails, whatever the target
    answers: the record counts them as failures and the log holds the
    errors of the lookup only. *)
Theorem lookup_outage_fails_every_probe (ios : list probe_io) :
  (forall io, In io ios ->
              exists err, getIPInfo (io_get io) host = inr err) ->
  Z.of_nat (List.length ios) <= Int64.max_int ->
  fst (run host port ios new_stats)
  = mkStats 0 0 (Z.of_nat (List.length ios)) 0 0 0 /\
  forallb is_lookup_failed (snd (run host port ios new_stats)) = true.
Proof.
  intros Hall Hlen. split.
  - apply run_no_success; [|exact Hlen]. intros io Hin.
    destruct (Hall io Hin) as [err He]. unfold probe_succeeds.
    rewrite He. reflexivity.
  - clear Hlen. generalize new_stats.
    induction ios as [|io l IH]; intros stats; [reflexivity|].
    rewrite LogFacts.run_log_cons, forallb_app.
    rewrite IH by (intros io' Hin; apply Hall; right; exact Hin).
    destruct (Hall io (or_introl eq_refl)) as [err He].
    unfold ping. rewrite He. reflexivity.
Qed.

End Run.

Lemma ipv6_target_never_connects_witness :
  printReport
    (fst (run "2001:db8::1" 443
            [answering google DialError 0; answering google DialError 0]
            new_stats))
  = [LogStatisticsTitle; LogCounts 0 0 2 S754_nan; LogTimesTitle].
Proof.
  refine (proj2 (ipv6_target_never_connects "2001:db8::1" 443
                   [answering google DialError 0;
                    answering google DialError 0] eq_refl _ _ _)).
  - vm_compute. tauto.
  - intros io Hin host port err _.
    repeat (destruct Hin as [<-|Hin]; [reflexivity|]). contradiction.
  - vm_compute. discriminate.
Defined.

Lemma lookup_outage_fails_every_probe_witness :
  fst (run "192.0.2.1" 80 [no_lookup; no_lookup] new_stats)
  = mkStats 0 0 2 0 0 0.
Proof.
  refine (proj1 (lookup_outage_fails_every_probe "192.0.2.1" 80
                   [no_lookup; no_lookup] _ _)).
  - intros io Hin.
    repeat (destruct Hin as [<-|Hin]; [eexists; reflexivity|]).
    contradiction.
  - vm_compute. discriminate.
Defined.

End DialFacts.
